(** * embetter.utils: the batch splitter and the cache-aside transform wrapper

  A shallow embedding of [batched] and [cached] from
  [src/embetter/utils.py], with the properties of the specification
  stated and settled against it.

  Python values are modelled by small inductive types, exceptions by
  the type [exn], a generator by the state machine its body compiles
  to, the disk cache by a finite map per directory, and the in-call
  result dictionary by an insertion-ordered association list. *)

From Stdlib Require Import ZArith Lia.
From stdpp Require Import gmap strings list fin_maps pretty.

Open Scope string_scope.
Open Scope list_scope.
Open Scope nat_scope.

(** Exceptions that the modelled code can raise. [Exception] stands for
  whatever an embedding pipeline raises on its own. *)
Inductive exn :=
| ValueError (msg : string)
| IndexError
| KeyError
| TypeError
| AttributeError (attr : string)
| Exception (msg : string).

(** ** The batch splitter *)

Module Batched.

(** The interpreter the code runs on, as far as [batched] sees it:
    [sys.maxsize], the largest size [itertools.islice] accepts. It is
    at least [2^31 - 1] on every build. *)
Class Interpreter := {
  maxsize : Z;
  maxsize_min : (2147483647 ≤ maxsize)%Z
}.

(** A 64-bit build: [sys.maxsize = 2^63 - 1]. *)
#[export] Instance cpython64 : Interpreter :=
  {| maxsize := 9223372036854775807; maxsize_min := ltac:(lia) |}.

Section Generator.
Context {A : Type} `{Interpreter}.

(** A generator object of [batched]: created but not started (the body
    has not run yet), suspended at the [yield] inside the [for] loop
    with the rest of the tuple still to go, or finished. *)
Inductive generator :=
  | Created (iterable : list A) (n : Z)
  | Suspended (batch : list A)
  | Closed.

(** What one [next()] on a generator produces. *)
Inductive outcome :=
  | Yield (x : A)
  | StopIteration
  | Raise (e : exn).

(** [tuple(islice(it, n))]: the next [n] items of the iterator;
    [islice] accepts a stop of [0] to [sys.maxsize] only. *)
Definition islice (it : list A) (n : Z) : exn + list A :=
  if ((n <? 0) || (maxsize <? n))%Z then
    inl (ValueError
           "Stop argument for islice() must be None or an integer: 0 <= x <= sys.maxsize.")
  else inr (take (Z.to_nat n) it).

(** [for batch in <tuple>: yield batch], resumed with what is left of
    the tuple. *)
Definition for_yield (batch : list A) : outcome * generator :=
  match batch with
  | [] => (StopIteration, Closed)
  | x :: rest => (Yield x, Suspended rest)
  end.

(** Calling [batched(iterable, n)] runs nothing of the body: it only
    builds the generator object. *)
Definition batched (iterable : list A) (n : Z) : generator :=
  Created iterable n.

(** [next(g)]: run the body up to the next [yield], the end or a
    [raise]. *)
Definition next (g : generator) : outcome * generator :=
  match g with
  | Created iterable n =>
      if (n <? 1)%Z then (Raise (ValueError "n must be at least one"), Closed)
      else
        let it := iterable in
        match islice it n with
        | inl e => (Raise e, Closed)
        | inr batch => for_yield batch
        end
  | Suspended batch => for_yield batch
  | Closed => (StopIteration, Closed)
  end.

(** [list(g)]: advance the generator until it stops or raises. [None]
    means the fuel ran out first. *)
Fixpoint collect (fuel : nat) (g : generator) : option (exn + list A) :=
  match fuel with
  | O => None
  | S fuel =>
      match next g with
      | (Yield x, g') =>
          match collect fuel g' with
          | Some (inr xs) => Some (inr (x :: xs))
          | r => r
          end
      | (StopIteration, _) => Some (inr [])
      | (Raise e, _) => Some (inl e)
      end
  end.

(** Steps that [list(g)] needs at most. *)
Definition gen_size (g : generator) : nat :=
  match g with
  | Created iterable _ => S (length iterable)
  | Suspended batch => length batch
  | Closed => 0
  end.

Definition to_list (g : generator) : option (exn + list A) :=
  collect (S (gen_size g)) g.

End Generator.

Arguments generator : clear implicits.
Arguments outcome : clear implicits.

End Batched.

(** ** The cache-aside transform wrapper *)

Module Cached.

Section Wrapper.
Context {item : Type} `{Countable item}.
Context {vec : Type}.

(** [str(a)] of a numpy array [a]. numpy is not part of the repository:
    its rendering is a parameter. *)
Variable np_str : vec → string.

(** The Python values that flow through [wrapped]: the sentinel string
    and the embedding vectors. *)
Inductive pyval :=
  | PyStr (s : string)
  | PyArr (a : vec).

Definition str (x : pyval) : string :=
  match x with
  | PyStr s => s
  | PyArr a => np_str a
  end.

(** What a call-count probe on the pipeline and a write probe on the
    store observe. *)
Inductive event :=
  | EvTransform (X : list item)
  | EvSet (directory : string) (key : item) (value : pyval).

(** The state outside the call: the cache directories on disk, each a
    key-value store, and the events observed so far. A directory that
    does not exist yet is an empty cache. *)
Record world := World {
  disk : gmap string (gmap item pyval);
  trace : list event
}.

(** Computations that read and write the world and may raise. *)
Definition M (R : Type) : Type := world → (exn + R) * world.

#[export] Instance M_ret : MRet M := λ R r w, (inr r, w).

#[export] Instance M_bind : MBind M := λ R Q k m w,
  match m w with
  | (inl e, w') => (inl e, w')
  | (inr r, w') => k r w'
  end.

Definition raise {R : Type} (e : exn) : M R := λ w, (inl e, w).

(** A comprehension [[f(x) for x in l]] whose body has effects. *)
Fixpoint for_each {R Q : Type} (f : R → M Q) (l : list R) : M (list Q) :=
  match l with
  | [] => mret []
  | x :: l => y ← f x; ys ← for_each f l; mret (y :: ys)
  end.

(** A [for] loop that updates a local variable. *)
Fixpoint for_loop {R S : Type} (body : S → R → M S) (s : S) (l : list R) : M S :=
  match l with
  | [] => mret s
  | x :: l => s' ← body s x; for_loop body s' l
  end.

(** *** diskcache *)

Definition contents (w : world) (directory : string) : gmap item pyval :=
  default ∅ (disk w !! directory).

(** [key in cache] *)
Definition cache_contains (directory : string) (key : item) : M bool := λ w,
  (inr (match contents w directory !! key with Some _ => true | None => false end), w).

(** [cache[key]] *)
Definition cache_getitem (directory : string) (key : item) : M pyval := λ w,
  match contents w directory !! key with
  | Some v => (inr v, w)
  | None => (inl KeyError, w)
  end.

(** [cache.set(key, value)] *)
Definition cache_set (directory : string) (key : item) (value : pyval) : M unit := λ w,
  (inr tt,
   World (<[directory := <[key := value]> (contents w directory)]> (disk w))
         (trace w ++ [EvSet directory key value])).

(** *** The result dictionary *)

(** A Python dict keeps its keys in insertion order; assigning to a key
    that is present keeps its place. *)
Fixpoint dict_set (i : nat) (v : pyval) (d : list (nat * pyval)) : list (nat * pyval) :=
  match d with
  | [] => [(i, v)]
  | (j, u) :: d' => if decide (i = j) then (j, v) :: d' else (j, u) :: dict_set i v d'
  end.

(** A dict comprehension [{i: v for ...}] over the pairs it produces. *)
Definition dict_of (pairs : list (nat * pyval)) : list (nat * pyval) :=
  fold_left (λ d '(i, v), dict_set i v d) pairs [].

Fixpoint enumerate_from {R : Type} (k : nat) (l : list R) : list (nat * R) :=
  match l with
  | [] => []
  | x :: l => (k, x) :: enumerate_from (S k) l
  end.

Definition enumerate {R : Type} (l : list R) : list (nat * R) := enumerate_from 0 l.

(** [X[i]] *)
Definition getitem (X : list item) (i : nat) : M item :=
  match X !! i with
  | Some x => mret x
  | None => raise IndexError
  end.

(** [str(x) == "TODO"] *)
Definition is_todo (x : pyval) : bool := bool_decide (str x = "TODO").

(** [np.array(rows)] on rows that are all vectors of one width, as the
    pipeline contract and the data model of the store have them: the
    rows, in order. What numpy makes of rows that still hold the
    sentinel string is not modelled: the properties that reach such
    rows speak of the store and of the trace only. *)
Definition np_array (rows : list pyval) : list pyval := rows.

(** *** [run_cached(method)] of [cached(name, pipeline)] *)

Definition wrapped (name : string) (method : list item → M (list pyval))
    (X : list item) : M (list pyval) :=
  pairs ← for_each (λ '(i, x),
             hit ← cache_contains name x;
             v ← (if hit : bool then cache_getitem name x else mret (PyStr "TODO"));
             mret (i, v)) (enumerate X);
  let results := dict_of pairs in
  text_todo ← for_each (λ '(i, x), getitem X i)
                 (List.filter (λ '(i, x), is_todo x) results);
  let i_todo := map (λ '(i, x), i) (List.filter (λ '(i, x), is_todo x) results) in
  out ← method text_todo;
  let reference := name in
  results ← for_loop (λ results '(i, (text, x_tfm)),
               let results := dict_set i x_tfm results in
               _ ← cache_set reference text x_tfm;
               mret results)
             results (zip i_todo (zip text_todo out));
  mret (np_array (map (λ '(i, arr), arr) results)).

Definition run_cached (name : string) (method : list item → M (list pyval)) :
    list item → M (list pyval) :=
  wrapped name method.

(** *** Pipelines and their [transform] attribute *)

(** The original [transform] of a pipeline: a function of the batch that
    returns the vectors or raises; the probe records the call. *)
Definition original (f : list item → exn + list pyval) (X : list item) : M (list pyval) := λ w,
  (f X, World (disk w) (trace w ++ [EvTransform X])).

(** A pipeline that embeds item by item and never fails. *)
Definition itemwise (embed : item → vec) (X : list item) : exn + list pyval :=
  inr (map (λ x, PyArr (embed x)) X).

(** What an attribute of a pipeline object can hold. *)
Inductive pyobj :=
  | Data (v : pyval)
  | Function (f : list item → exn + list pyval)
  | RunCached (name : string) (method : pyobj).

(** [f(X)] for an attribute value [f]. *)
Fixpoint call (f : pyobj) : list item → M (list pyval) :=
  match f with
  | Data _ => λ _, raise TypeError
  | Function f => original f
  | RunCached name method => run_cached name (call method)
  end.

(** An object: the attributes of its class and its own [__dict__]. *)
Record object := Obj {
  class_attrs : gmap string pyobj;
  instance_attrs : gmap string pyobj
}.

Definition getattr (o : object) (a : string) : option pyobj :=
  match instance_attrs o !! a with
  | Some v => Some v
  | None => class_attrs o !! a
  end.

Definition setattr (o : object) (a : string) (v : pyobj) : object :=
  Obj (class_attrs o) (<[a := v]> (instance_attrs o)).

(** [cached(name, pipeline)]: [pipeline] is a reference into the heap of
    objects. [Cache(name)] opens the directory [name], which leaves its
    contents as they are. *)
Definition cached (name : string) (pipeline : nat) (heap : gmap nat object) :
    exn + (nat * gmap nat object) :=
  match heap !! pipeline with
  | None => inl (Exception "no such object")
  | Some o =>
      match getattr o "transform" with
      | None => inl (AttributeError "transform")
      | Some method =>
          inr (pipeline,
               <[pipeline := setattr o "transform" (RunCached name method)]> heap)
      end
  end.

(** [pipeline.transform(X)] *)
Definition call_transform (heap : gmap nat object) (pipeline : nat) (X : list item) :
    M (list pyval) :=
  match heap !! pipeline with
  | None => raise (Exception "no such object")
  | Some o =>
      match getattr o "transform" with
      | None => raise (AttributeError "transform")
      | Some f => call f X
      end
  end.

(** *** The notions of the specification *)

(** The Miss List: the (index, item) pairs of the items that the store
    [c] does not hold, indices counted from [k]. *)
Fixpoint todo (c : gmap item pyval) (k : nat) (X : list item) : list (nat * item) :=
  match X with
  | [] => []
  | x :: X =>
      match c !! x with
      | Some _ => todo c (S k) X
      | None => (k, x) :: todo c (S k) X
      end
  end.

(** The items of the Miss List. *)
Definition misses (c : gmap item pyval) (X : list item) : list item :=
  List.filter (λ x, match c !! x with Some _ => false | None => true end) X.

(** The number of misses before index [i]. *)
Definition rank (c : gmap item pyval) (X : list item) (i : nat) : nat :=
  length (misses c (take i X)).

(** The assembled result: the cached value at a hit, the next computed
    vector at a miss (the sentinel is left where the pipeline returned
    too few vectors). *)
Fixpoint merge (c : gmap item pyval) (X : list item) (out : list pyval) : list pyval :=
  match X with
  | [] => []
  | x :: X =>
      match c !! x with
      | Some v => v :: merge c X out
      | None =>
          match out with
          | [] => PyStr "TODO" :: merge c X []
          | o :: out => o :: merge c X out
          end
      end
  end.

(** The writes of step 3, in order. *)
Definition write_back (name : string) (kvs : list (item * pyval)) (w : world) : world :=
  fold_left (λ w '(k, v), (cache_set name k v w).2) kvs w.

(** Every value that the store holds for an item of [X] is a vector. *)
Definition holds_vectors (c : gmap item pyval) (X : list item) : Prop :=
  ∀ x v, x ∈ X → c !! x = Some v → ∃ a, v = PyArr a.

(** Every entry of the store for an item of [X] is the vector that
    [embed] computes for it. *)
Definition agrees (embed : item → vec) (c : gmap item pyval) (X : list item) : Prop :=
  ∀ x v, x ∈ X → c !! x = Some v → v = PyArr (embed x).

(** A pipeline that is item-wise wherever it returns: it may raise on
    a batch (the empty one, say), and what it returns for a batch is
    the vector of [embed] for each of its items, in order. *)
Definition returns_itemwise (embed : item → vec)
    (p : list item → exn + list pyval) : Prop :=
  ∀ Y rows, p Y = inr rows → rows = map (λ x, PyArr (embed x)) Y.

(** The slots of the result dictionary before the pipeline is called. *)
Fixpoint slots (c : gmap item pyval) (k : nat) (X : list item) : list (nat * pyval) :=
  match X with
  | [] => []
  | x :: X => (k, default (PyStr "TODO") (c !! x)) :: slots c (S k) X
  end.

(** The world once the probe has recorded a call of the original
    [transform] on [Y]. *)
Definition called (Y : list item) (w : world) : world :=
  World (disk w) (trace w ++ [EvTransform Y]).

(** Checkers for concrete stores. *)
Definition holds_vectors_b (c : gmap item pyval) (X : list item) : bool :=
  forallb (λ x, match c !! x with Some (PyStr _) => false | _ => true end) X.

Definition agrees_b `{EqDecision vec} (embed : item → vec) (c : gmap item pyval)
    (X : list item) : bool :=
  forallb (λ x, match c !! x with
                | Some (PyStr _) => false
                | Some (PyArr a) => bool_decide (a = embed x)
                | None => true
                end) X.

(** *** The pending slots, whatever the store holds *)

(** The test of lines 58 and 59 on the slot of an item: the slot is
    pending when the item is not in the store, and also when the stored
    value renders as the sentinel. *)
Definition pending (c : gmap item pyval) (x : item) : bool :=
  is_todo (default (PyStr "TODO") (c !! x)).

(** [text_todo]: the items of the pending slots. *)
Definition pending_items (c : gmap item pyval) (X : list item) : list item :=
  List.filter (pending c) X.

(** The assembled result for any store: a slot that is not pending
    keeps the stored value, a pending slot gets the next computed
    vector, or keeps what it held where the pipeline returned too few. *)
Fixpoint assemble (c : gmap item pyval) (X : list item) (out : list pyval) : list pyval :=
  match X with
  | [] => []
  | x :: X =>
      let slot := default (PyStr "TODO") (c !! x) in
      if is_todo slot then
        match out with
        | [] => slot :: assemble c X []
        | o :: out => o :: assemble c X out
        end
      else slot :: assemble c X out
  end.

(** *** [calc_distances] *)

(** A library function that returns or raises. *)
Definition lift {R : Type} (r : exn + R) : M R := λ w, (r, w).

(** The truth value of an object: what its class's [__bool__] or
    [__len__] makes it, and true without them. The classes of the
    pipelines are not part of the repository: a parameter. *)
Variable truthy : object → bool.

(** The test of [if anchor_pipeline:], where [anchor_pipeline] is
    [None], which is false, or a reference to an object. *)
Definition truth_value (heap : gmap nat object) (anchor_pipeline : option nat) : M bool :=
  match anchor_pipeline with
  | None => mret false
  | Some r =>
      match heap !! r with
      | Some o => mret (truthy o)
      | None => raise (Exception "no such object")
      end
  end.

(** [calc_distances(inputs, anchors, pipeline, anchor_pipeline, metric,
    aggregate, n_jobs)]. sklearn's [pairwise_distances] (with [metric]
    and [n_jobs] already given) and the [aggregate] (with [axis=1]) are
    not part of the repository: they are parameters. *)
Definition calc_distances {D R : Type}
    (pairwise_distances : list pyval → list pyval → exn + D)
    (aggregate : D → exn + R)
    (heap : gmap nat object) (inputs anchors : list item)
    (pipeline : nat) (anchor_pipeline : option nat) : M R :=
  X_input ← call_transform heap pipeline inputs;
  test ← truth_value heap anchor_pipeline;
  X_anchors ← match test, anchor_pipeline with
               | true, Some anchor_pipeline => call_transform heap anchor_pipeline anchors
               | _, _ => call_transform heap pipeline anchors
               end;
  X_dist ← lift (pairwise_distances X_input X_anchors);
  lift (aggregate X_dist).

End Wrapper.

End Cached.

(** ** A concrete pipeline: strings to one-element integer vectors *)

Module Scenario.
Import Cached.

(** The rendering of an integer array, as in [str(np.array([2, 3]))]. *)
Definition show (a : list Z) : string :=
  "[" +:+ String.concat " " (pretty <$> a) +:+ "]".

(** The pipeline of the specification's scenario: [len(x)] as a vector. *)
Definition len (x : string) : list Z := [Z.of_nat (String.length x)].

Definition fresh : @world string _ _ (list Z) := World ∅ [].

(** A store in which "A" and "C" are seeded. *)
Definition seeded : @world string _ _ (list Z) :=
  World {[ "emb" := {[ "A" := PyArr [7%Z]; "C" := PyArr [9%Z] ]} ]} [].

(** A store with an entry for "ab" that this pipeline did not write. *)
Definition stale : @world string _ _ (list Z) :=
  World {[ "emb" := {[ "ab" := PyArr [9%Z] ]} ]} [].

(** One pipeline object: [transform] is a method of its class. *)
Definition encoder : @object string (list Z) :=
  Obj {[ "transform" := Function (itemwise len); "name" := Data (PyStr "len") ]} ∅.

(** A store that holds the [len] vector of "ab". *)
Definition agreeing : @world string _ _ (list Z) :=
  World {[ "emb" := {[ "ab" := PyArr [2%Z] ]} ]} [].

(** The [len] pipeline that rejects the empty batch, as estimators
    that validate their input do. *)
Definition strict_len (X : list string) : exn + list (@pyval (list Z)) :=
  match X with
  | [] => inl (ValueError "Found array with 0 sample(s)")
  | _ => itemwise len X
  end.

(** Every object is true. *)
Definition all_true (o : @object string (list Z)) : bool := true.

(** A store in which the value of "ab" renders as the sentinel. *)
Definition collided : @world string _ _ (list Z) :=
  World {[ "emb" := {[ "ab" := PyStr "TODO" ]} ]} [].

(** A second pipeline: every item to the vector [0]. *)
Definition zero (x : string) : list Z := [0%Z].

(** Encoder objects after [cached(..)] on "emb": [transform] is a
    method of the class, the wrapper is in the object's own dict. *)
Definition len_cached : @object string (list Z) :=
  Obj {[ "transform" := Function (itemwise len) ]}
      {[ "transform" := RunCached "emb" (Function (itemwise len)) ]}.

Definition zero_cached : @object string (list Z) :=
  Obj {[ "transform" := Function (itemwise zero) ]}
      {[ "transform" := RunCached "emb" (Function (itemwise zero)) ]}.

(** An encoder whose [transform] always raises. *)
Definition broken_cached : @object string (list Z) :=
  Obj ∅ {[ "transform" :=
             RunCached "emb" (Function (λ _, inl (Exception "model not loaded"))) ]}.

Definition encoders : gmap nat (@object string (list Z)) :=
  {[ 0 := len_cached; 1 := zero_cached ]}.

(** Stand-ins for the library functions of [calc_distances]: the
    "distances" are the two arrays, the aggregate returns them. *)
Definition both (X_input X_anchors : list (@pyval (list Z))) :
    exn + (list (@pyval (list Z)) * list (@pyval (list Z))) :=
  inr (X_input, X_anchors).

Definition same (X_dist : list (@pyval (list Z)) * list (@pyval (list Z))) :
    exn + (list (@pyval (list Z)) * list (@pyval (list Z))) :=
  inr X_dist.

End Scenario.

Import Batched Cached Scenario.

Ltac unfold_M := unfold mbind, M_bind, mret, M_ret, raise in *.

(** * Properties of the batch splitter *)

Section BatchedFacts.
Context {A : Type} `{Interpreter}.

Lemma collect_suspended (batch : list A) (fuel : nat) :
  length batch < fuel → collect fuel (Suspended batch) = Some (inr batch).
Proof.
  revert fuel. induction batch as [|x rest IH]; intros [|fuel] Hlt;
    simpl in *; try lia; [done|].
  rewrite IH by lia. done.
Qed.

Lemma collect_for_yield (batch : list A) (fuel : nat) :
  length batch < S fuel →
  match for_yield batch with
  | (Yield x, g') =>
      match collect fuel g' with
      | Some (inr xs) => Some (inr (x :: xs))
      | r => r
      end
  | (StopIteration, _) => Some (inr [])
  | (Raise e, _) => Some (inl e)
  end = Some (inr batch).
Proof.
  destruct batch as [|x rest]; simpl; [done|].
  intros Hlt. rewrite collect_suspended by lia. done.
Qed.

Lemma islice_ok (it : list A) (n : Z) :
  (0 ≤ n)%Z → (n ≤ maxsize)%Z → islice it n = inr (take (Z.to_nat n) it).
Proof.
  intros Hn Hmax. unfold islice.
  destruct (Z.ltb_spec n 0); [lia|]. destruct (Z.ltb_spec maxsize n); [lia|]. done.
Qed.

Lemma islice_too_large (it : list A) (n : Z) :
  (maxsize < n)%Z →
  islice it n
  = inl (ValueError
           "Stop argument for islice() must be None or an integer: 0 <= x <= sys.maxsize.").
Proof.
  intros Hmax. unfold islice.
  destruct (Z.ltb_spec maxsize n); [|lia]. by rewrite orb_true_r.
Qed.

(** With a size from one to [sys.maxsize] the generator yields the
    items of the first [islice], one by one, and stops. *)
Lemma collect_batched_ok (iterable : list A) (n : Z) (fuel : nat) :
  (1 ≤ n)%Z → (n ≤ maxsize)%Z → length (take (Z.to_nat n) iterable) < fuel →
  collect fuel (batched iterable n) = Some (inr (take (Z.to_nat n) iterable)).
Proof.
  intros Hn Hmax Hfuel. destruct fuel as [|fuel]; [lia|].
  unfold batched. cbn [collect next].
  destruct (Z.ltb_spec n 1) as [|_]; [lia|].
  rewrite islice_ok by lia. by apply collect_for_yield.
Qed.

Lemma collect_batched_error (iterable : list A) (n : Z) (fuel : nat) :
  (n < 1)%Z →
  collect (S fuel) (batched iterable n)
  = Some (inl (ValueError "n must be at least one")).
Proof.
  intros Hn. unfold batched. cbn [collect next].
  destruct (Z.ltb_spec n 1) as [_|]; [done|lia].
Qed.

Lemma collect_batched_too_large (iterable : list A) (n : Z) (fuel : nat) :
  (maxsize < n)%Z →
  collect (S fuel) (batched iterable n)
  = Some (inl (ValueError
                 "Stop argument for islice() must be None or an integer: 0 <= x <= sys.maxsize.")).
Proof.
  intros Hn. pose proof maxsize_min. unfold batched. cbn [collect next].
  destruct (Z.ltb_spec n 1) as [|_]; [lia|].
  by rewrite islice_too_large.
Qed.

Lemma to_list_batched (iterable : list A) (n : Z) :
  to_list (batched iterable n)
  = Some (if (n <? 1)%Z then inl (ValueError "n must be at least one")
          else islice iterable n).
Proof.
  unfold to_list. destruct (Z.ltb_spec n 1).
  - by apply collect_batched_error.
  - destruct (Z.ltb_spec maxsize n).
    + rewrite islice_too_large by done. by apply collect_batched_too_large.
    + rewrite islice_ok by lia. apply collect_batched_ok; [done..|].
      rewrite length_take. simpl. lia.
Qed.

(** C9, as the code has it: advancing [batched(iterable, n)] fails
    exactly when [n < 1] or [n > sys.maxsize], each time with a
    ValueError: that of the guard exactly when [n < 1], at the first
    [next], and that of [islice] for a size above [sys.maxsize];
    [list(...)] always ends; a size of 0 raises, and an empty input
    with size 2 gives the empty sequence. *)
Theorem batched_value_error_iff (iterable : list A) (n : Z) :
  ((∃ msg, (next (batched iterable n)).1 = Raise (ValueError msg))
     ↔ (n < 1 ∨ maxsize < n)%Z)
  ∧ ((next (batched iterable n)).1 = Raise (ValueError "n must be at least one")
     ↔ (n < 1)%Z)
  ∧ ((∃ e, to_list (batched iterable n) = Some (inl e))
     ↔ (n < 1 ∨ maxsize < n)%Z)
  ∧ (∀ e, to_list (batched iterable n) = Some (inl e) → ∃ msg, e = ValueError msg)
  ∧ to_list (batched iterable n) ≠ None
  ∧ to_list (batched iterable 0) = Some (inl (ValueError "n must be at least one"))
  ∧ to_list (batched ([] : list A) 2) = Some (inr []).
Proof.
  pose proof maxsize_min as Hmin.
  rewrite !to_list_batched. unfold batched, next.
  assert (Hyield : ∀ (batch : list A) e, (for_yield batch).1 ≠ Raise e).
  { intros [|x rest] e; simpl; intros [=]. }
  destruct (Z.ltb_spec n 1) as [Hn|Hn].
  - split; [split; [by left|by eauto]|]. split; [done|].
    split; [split; [by left|by eauto]|].
    split; [by intros e [= <-]; eauto|].
    split; [done|]. split; [done|]. simpl. by rewrite islice_ok by lia.
  - destruct (Z.ltb_spec maxsize n) as [Hmax|Hmax].
    + rewrite islice_too_large by done. simpl.
      split; [split; [by right|by eauto]|]. split; [split; [intros [=]|lia]|].
      split; [split; [by right|by eauto]|].
      split; [by intros e [= <-]; eauto|].
      split; [done|]. split; [done|]. by rewrite islice_ok by lia.
    + rewrite islice_ok by lia.
      split; [split; [intros [msg Hmsg]; by apply Hyield in Hmsg|lia]|].
      split; [split; [intros Hmsg; by apply Hyield in Hmsg|lia]|].
      split; [split; [intros [e [=]]|lia]|].
      split; [intros e [=]|].
      split; [done|]. split; [done|]. simpl. by rewrite islice_ok by lia.
Qed.

(** With a size from one to [sys.maxsize], iterating
    [batched(iterable, n)] yields the first [n] items of the input (all
    of them when there are at most [n]), one item per [next], and then
    stops: an item beyond the first [n] is never yielded. The fuel
    needed depends on [n] only, not on the length of the input. *)
Theorem batched_yields_first_items (iterable : list A) (n : Z) (fuel : nat) :
  (1 ≤ n)%Z →
  (n ≤ maxsize)%Z →
  Z.to_nat n < fuel →
  collect fuel (batched iterable n) = Some (inr (take (Z.to_nat n) iterable))
  ∧ to_list (batched iterable n) = Some (inr (take (Z.to_nat n) iterable))
  ∧ length (take (Z.to_nat n) iterable) ≤ Z.to_nat n
  ∧ ((Z.of_nat (length iterable) ≤ n)%Z →
       to_list (batched iterable n) = Some (inr iterable))
  ∧ ((n < Z.of_nat (length iterable))%Z →
       to_list (batched iterable n) ≠ Some (inr iterable)).
Proof.
  intros Hn Hmax Hfuel.
  assert (Hlen : length (take (Z.to_nat n) iterable) ≤ Z.to_nat n).
  { rewrite length_take. lia. }
  assert (Hlist : to_list (batched iterable n) = Some (inr (take (Z.to_nat n) iterable))).
  { rewrite to_list_batched, islice_ok by lia. by destruct (Z.ltb_spec n 1); [lia|]. }
  split; [apply collect_batched_ok; [done..|lia]|].
  split; [done|]. split; [done|]. rewrite Hlist. split.
  - intros Hall. by rewrite take_ge by lia.
  - intros Hmore [= Heq]. apply (f_equal length) in Heq.
    rewrite length_take in Heq. lia.
Qed.

End BatchedFacts.

(** C3, at the scenario of the specification: the generator takes the
    first [n] items as one tuple and then yields the items of that
    tuple, one per [next]; it yields 1 and 2 and stops, and 3, 4 and 5
    are never produced. *)
Theorem batched_yields_items_of_first_slice :
  next (batched [1; 2; 3; 4; 5]%Z 2) = (Yield 1%Z, Suspended [2%Z])
  ∧ next (Suspended [2%Z]) = (Yield 2%Z, Suspended [])
  ∧ next (Suspended ([] : list Z)) = (StopIteration, Closed)
  ∧ to_list (batched [1; 2; 3; 4; 5]%Z 2) = Some (inr [1; 2]%Z).
Proof. repeat split. Qed.

(** * Properties of the cache-aside transform wrapper *)

Section WrapperFacts.
Context {item : Type} `{Countable item}.
Context {vec : Type}.
Variable np_str : vec → string.

Local Abbreviation pyval := (@Cached.pyval vec).
Local Abbreviation PyStr := (@Cached.PyStr vec).
Local Abbreviation PyArr := (@Cached.PyArr vec).
Local Abbreviation event := (@Cached.event item vec).
Local Abbreviation world := (@Cached.world item _ _ vec).
Local Abbreviation M := (@Cached.M item _ _ vec).
Local Abbreviation pyobj := (@Cached.pyobj item vec).
Local Abbreviation object := (@Cached.object item vec).
Local Abbreviation is_todo := (Cached.is_todo np_str).
Local Abbreviation wrapped := (Cached.wrapped np_str).
Local Abbreviation call := (Cached.call np_str).
Local Abbreviation call_transform := (Cached.call_transform np_str).

(** ** How [wrapped] runs *)

Lemma for_each_pure {R Q : Type} (f : R → M Q) (g : R → Q) (l : list R) (w : world) :
  (∀ x, x ∈ l → f x w = (inr (g x), w)) →
  for_each f l w = (inr (map g l), w).
Proof.
  induction l as [|x l IH]; intros Hf; [done|].
  cbn [for_each map]. unfold mbind, M_bind.
  rewrite Hf by left. rewrite IH; [done|].
  intros y Hy. apply Hf. by right.
Qed.

Lemma for_loop_run {R S : Type} (body : S → R → M S) (step : S → R → S)
    (effect : world → R → world) (l : list R) (s : S) (w : world) :
  (∀ s x w, body s x w = (inr (step s x), effect w x)) →
  for_loop body s l w = (inr (fold_left step l s), fold_left effect l w).
Proof.
  intros Hbody. revert s w. induction l as [|x l IH]; intros s w; [done|].
  cbn [for_loop fold_left]. unfold mbind, M_bind.
  rewrite Hbody. apply IH.
Qed.

Lemma slots_enumerate (c : gmap item pyval) (k : nat) (X : list item) :
  map (λ '(i, x), (i, default (PyStr "TODO") (c !! x))) (enumerate_from k X)
  = slots c k X.
Proof.
  revert k. induction X as [|x X IH]; intros k; [done|].
  simpl. by rewrite IH.
Qed.

Lemma for_each_probe (name : string) (k : nat) (X : list item) (w : world) :
  for_each (λ '(i, x),
      hit ← cache_contains name x;
      v ← (if hit : bool then cache_getitem name x else mret (PyStr "TODO"));
      mret (i, v)) (enumerate_from k X) w
  = (inr (slots (contents w name) k X), w).
Proof.
  rewrite <- slots_enumerate. apply for_each_pure.
  intros [i x] _. unfold_M. unfold cache_contains, cache_getitem.
  destruct (contents w name !! x) as [v|] eqn:Hx; simpl; rewrite ?Hx; done.
Qed.

Lemma dict_set_fresh (i : nat) (v : pyval) (d : list (nat * pyval)) :
  (∀ p, p ∈ d → p.1 ≠ i) → dict_set i v d = d ++ [(i, v)].
Proof.
  induction d as [|[j u] d IH]; intros Hd; [done|]. simpl.
  destruct (decide (i = j)) as [->|_].
  - exfalso. apply (Hd (j, u)); [left|done].
  - rewrite IH; [done|]. intros p Hp. apply Hd. by right.
Qed.

Lemma dict_of_slots_from (c : gmap item pyval) (k : nat) (X : list item)
    (d : list (nat * pyval)) :
  (∀ p, p ∈ d → p.1 < k) →
  fold_left (λ d '(i, v), dict_set i v d) (slots c k X) d = d ++ slots c k X.
Proof.
  revert k d. induction X as [|x X IH]; intros k d Hd; simpl.
  - by rewrite app_nil_r.
  - rewrite dict_set_fresh.
    + rewrite IH; [by rewrite <- app_assoc|].
      intros p [Hp|Hp]%elem_of_app; [apply Hd in Hp; lia|].
      apply list_elem_of_singleton in Hp as ->. simpl. lia.
    + intros p Hp. apply Hd in Hp. lia.
Qed.

Lemma dict_of_slots (c : gmap item pyval) (X : list item) :
  dict_of (slots c 0 X) = slots c 0 X.
Proof.
  unfold dict_of. rewrite dict_of_slots_from; [done|].
  intros p Hp. by apply elem_of_nil in Hp.
Qed.

(** numpy never renders an array as the sentinel. *)
Hypothesis np_str_not_todo : ∀ a, np_str a ≠ "TODO".

Lemma is_todo_sentinel : is_todo (PyStr "TODO") = true.
Proof. unfold is_todo. by apply bool_decide_eq_true. Qed.

Lemma is_todo_vector (a : vec) : is_todo (PyArr a) = false.
Proof. unfold is_todo. apply bool_decide_eq_false. simpl. apply np_str_not_todo. Qed.

Lemma holds_vectors_cons (c : gmap item pyval) (x : item) (X : list item) :
  holds_vectors c (x :: X) → holds_vectors c X.
Proof. intros Hc y v Hy. apply Hc. by right. Qed.

(** The pending slots are those of the Miss List. *)
Lemma filter_slots (c : gmap item pyval) (k : nat) (X : list item) :
  holds_vectors c X →
  List.filter (λ '(i, x), is_todo x) (slots c k X)
  = map (λ '(i, _), (i, PyStr "TODO")) (todo c k X).
Proof.
  revert k. induction X as [|x X IH]; intros k Hc; [done|].
  cbn [slots todo List.filter].
  destruct (c !! x) as [v|] eqn:Hx; cbn [from_option id].
  - destruct (Hc x v) as [a ->]; [left|done|].
    rewrite is_todo_vector. apply IH. by eapply holds_vectors_cons.
  - rewrite is_todo_sentinel. cbn [map]. f_equal.
    apply IH. by eapply holds_vectors_cons.
Qed.

Lemma todo_items (c : gmap item pyval) (k : nat) (X : list item) :
  map snd (todo c k X) = misses c X.
Proof.
  revert k. induction X as [|x X IH]; intros k; [done|].
  cbn [todo misses List.filter]. fold (misses c X).
  destruct (c !! x); cbn [map snd]; by rewrite IH.
Qed.

Lemma todo_elem (c : gmap item pyval) (k : nat) (X : list item) (i : nat) (x : item) :
  (i, x) ∈ todo c k X → k ≤ i ∧ X !! (i - k) = Some x ∧ c !! x = None.
Proof.
  revert k. induction X as [|y X IH]; intros k Hin; simpl in Hin.
  - by apply elem_of_nil in Hin.
  - assert (Hrest : (i, x) ∈ todo c (S k) X → k ≤ i ∧ (y :: X) !! (i - k) = Some x ∧ c !! x = None).
    { intros (Hle & Hlook & Hc)%IH. split; [lia|]. split; [|done].
      replace (i - k) with (S (i - S k)) by lia. done. }
    destruct (c !! y) eqn:Hy; [by apply Hrest|].
    apply elem_of_cons in Hin as [[= -> ->]|Hin]; [|by apply Hrest].
    rewrite Nat.sub_diag. done.
Qed.

Lemma for_each_getitem (X : list item) (T : list (nat * item)) (w : world) :
  (∀ i x, (i, x) ∈ T → X !! i = Some x) →
  for_each (λ '(i, x), getitem X i) (map (λ '(i, _), (i, PyStr "TODO")) T) w
  = (inr (map snd T), w).
Proof.
  induction T as [|[i x] T IH]; intros HT; [done|].
  cbn [map for_each snd]. unfold mbind, M_bind.
  unfold getitem at 1. rewrite (HT i x) by left.
  unfold mret at 1, M_ret at 1. rewrite IH; [done|].
  intros j y Hj. apply HT. by right.
Qed.

(** Assigning to later indices leaves an earlier slot where it is. *)
Lemma fold_dict_set_head (k : nat) (v : pyval) (d : list (nat * pyval))
    (l : list (nat * (item * pyval))) :
  (∀ p, p ∈ l → p.1 ≠ k) →
  fold_left (λ d '(i, (text, x_tfm)), dict_set i x_tfm d) l ((k, v) :: d)
  = (k, v) :: fold_left (λ d '(i, (text, x_tfm)), dict_set i x_tfm d) l d.
Proof.
  revert d. induction l as [|[i [t u]] l IH]; intros d Hl; [done|].
  cbn [fold_left dict_set].
  destruct (decide (i = k)) as [->|_].
  - exfalso. apply (Hl (k, (t, u))); [left|done].
  - apply IH. intros p Hp. apply Hl. by right.
Qed.

Lemma zip_todo_later (c : gmap item pyval) (k : nat) (X : list item)
    (tv : list (item * pyval)) (p : nat * (item * pyval)) :
  p ∈ zip (map fst (todo c (S k) X)) tv → p.1 ≠ k.
Proof.
  destruct p as [i q]. intros Hin%elem_of_zip_l.
  apply list_elem_of_fmap in Hin as [[j x] [-> Hin]].
  apply todo_elem in Hin. simpl. lia.
Qed.

Lemma slots_merge_nil (c : gmap item pyval) (k : nat) (X : list item) :
  map snd (slots c k X) = merge c X [].
Proof.
  revert k. induction X as [|x X IH]; intros k; [done|].
  cbn [slots merge map snd]. rewrite IH. by destruct (c !! x).
Qed.

(** Step 3 on the result dictionary yields the assembled result. *)
Lemma fold_dict_set_merge (c : gmap item pyval) (k : nat) (X : list item)
    (out : list pyval) :
  map snd (fold_left (λ d '(i, (text, x_tfm)), dict_set i x_tfm d)
             (zip (map fst (todo c k X)) (zip (map snd (todo c k X)) out))
             (slots c k X))
  = merge c X out.
Proof.
  revert k out. induction X as [|x X IH]; intros k out; [done|].
  cbn [slots todo merge]. destruct (c !! x) as [v|] eqn:Hx; cbn [from_option id].
  - rewrite fold_dict_set_head by apply zip_todo_later.
    cbn [map snd]. by rewrite IH.
  - destruct out as [|o out]; cbn [map fst snd zip zip_with fold_left].
    + cbn [map snd]. by rewrite slots_merge_nil.
    + cbn [dict_set]. rewrite decide_True by done.
      rewrite fold_dict_set_head by apply zip_todo_later.
      cbn [map snd]. by rewrite IH.
Qed.

Lemma bind_run {R Q : Type} (m : M R) (k : R → M Q) (w : world) :
  (m ≫= k) w
  = match m w with
    | (inl e, w') => (inl e, w')
    | (inr r, w') => k r w'
    end.
Proof. done. Qed.

Lemma todo_indices (T : list (nat * item)) :
  map (λ '(i, x), i) (map (λ '(i, _), (i, PyStr "TODO")) T) = map fst T.
Proof. induction T as [|[i x] T IH]; [done|]. simpl. by rewrite IH. Qed.

Lemma fold_zip_indices {W V : Type} (g : W → V → W) (I : list nat) (tv : list V) (w : W) :
  length tv ≤ length I →
  fold_left (λ w '(i, p), g w p) (zip I tv) w = fold_left g tv w.
Proof.
  revert I w. induction tv as [|p tv IH]; intros [|i I] w Hlen; simpl in *;
    try done; try lia.
  apply IH. lia.
Qed.

(** The whole of [wrapped], for any [method] and any world whose store
    holds vectors: the probe pass leaves the world as it is, [method]
    gets the items of the Miss List, its failure is the call's failure,
    and otherwise the result is assembled and the pairs of misses and
    computed vectors are written back. *)
Lemma wrapped_run (name : string) (method : list item → M (list pyval))
    (X : list item) (w : world) :
  holds_vectors (contents w name) X →
  wrapped name method X w
  = match method (misses (contents w name) X) w with
    | (inl e, w') => (inl e, w')
    | (inr out, w') =>
        (inr (merge (contents w name) X out),
         write_back name (zip (misses (contents w name) X) out) w')
    end.
Proof.
  intros Hc. unfold wrapped, enumerate.
  rewrite bind_run, for_each_probe. cbv beta iota zeta.
  rewrite dict_of_slots, !filter_slots by done.
  rewrite bind_run, for_each_getitem; cycle 1.
  { intros i x (_ & Hi & _)%todo_elem. by rewrite Nat.sub_0_r in Hi. }
  cbv beta iota. rewrite todo_indices, bind_run.
  rewrite todo_items at 1.
  destruct (method (misses (contents w name) X) w) as [[e|out] w']; [done|].
  rewrite bind_run.
  rewrite (for_loop_run _
             (λ d '(i, (text, x_tfm)), dict_set i x_tfm d)
             (λ w '(i, p), (λ w '(k, v), (cache_set name k v w).2) w p)); cycle 1.
  { by intros d [i [t v]] w0. }
  unfold mret, M_ret, np_array. f_equal.
  - f_equal. rewrite <- (fold_dict_set_merge _ 0).
    clear. induction (fold_left _ _ _) as [|[i v] d IH]; [done|].
    simpl. by rewrite IH.
  - rewrite fold_zip_indices; [by rewrite todo_items|].
    rewrite length_zip_with, !length_map. lia.
Qed.

(** *** The store after the write-back *)

Lemma write_back_app (name : string) (kvs1 kvs2 : list (item * pyval)) (w : world) :
  write_back name (kvs1 ++ kvs2) w = write_back name kvs2 (write_back name kvs1 w).
Proof. unfold write_back. apply fold_left_app. Qed.

Lemma write_back_trace (name : string) (kvs : list (item * pyval)) (w : world) :
  trace (write_back name kvs w)
  = trace w ++ map (λ '(k, v), EvSet name k v) kvs.
Proof.
  unfold write_back. revert w.
  induction kvs as [|[k v] kvs IH]; intros w; cbn [fold_left map].
  - by rewrite app_nil_r.
  - rewrite IH. simpl. by rewrite <- app_assoc.
Qed.

Lemma contents_cache_set (name : string) (k : item) (v : pyval) (w : world) :
  contents (cache_set name k v w).2 name = <[k := v]> (contents w name).
Proof. unfold contents at 1. simpl. by rewrite lookup_insert_eq. Qed.

Lemma contents_cache_set_other (name name' : string) (k : item) (v : pyval) (w : world) :
  name ≠ name' → contents (cache_set name k v w).2 name' = contents w name'.
Proof. intros Hne. unfold contents. simpl. by rewrite lookup_insert_ne. Qed.

Lemma write_back_other (name name' : string) (kvs : list (item * pyval)) (w : world) :
  name ≠ name' → contents (write_back name kvs w) name' = contents w name'.
Proof.
  intros Hne. unfold write_back. revert w.
  induction kvs as [|[k v] kvs IH]; intros w; [done|].
  cbn [fold_left]. rewrite IH. by apply contents_cache_set_other.
Qed.

(** A key that is not written keeps its entry. *)
Lemma write_back_lookup_other (name : string) (kvs : list (item * pyval)) (w : world)
    (x : item) :
  x ∉ map fst kvs →
  contents (write_back name kvs w) name !! x = contents w name !! x.
Proof.
  unfold write_back. revert w.
  induction kvs as [|[k v] kvs IH]; intros w Hx; [done|].
  cbn [fold_left map fst] in *. rewrite IH.
  - rewrite contents_cache_set. apply lookup_insert_ne.
    intros ->. apply Hx. left.
  - intros Hin. apply Hx. by right.
Qed.

(** The last write to a key is the one that stays. *)
Lemma write_back_lookup_last (name : string) (kvs1 kvs2 : list (item * pyval))
    (w : world) (x : item) (v : pyval) :
  x ∉ map fst kvs2 →
  contents (write_back name (kvs1 ++ (x, v) :: kvs2) w) name !! x = Some v.
Proof.
  intros Hx. rewrite write_back_app.
  change (write_back name ((x, v) :: kvs2) ?w0)
    with (write_back name kvs2 (cache_set name x v w0).2).
  rewrite write_back_lookup_other by done.
  rewrite contents_cache_set. apply lookup_insert_eq.
Qed.

(** *** The Miss List *)

Lemma misses_app (c : gmap item pyval) (X1 X2 : list item) :
  misses c (X1 ++ X2) = misses c X1 ++ misses c X2.
Proof. unfold misses. apply List.filter_app. Qed.

Lemma elem_of_misses (c : gmap item pyval) (X : list item) (x : item) :
  x ∈ misses c X ↔ x ∈ X ∧ c !! x = None.
Proof.
  unfold misses. rewrite !list_elem_of_In, List.filter_In.
  split; intros [Hx Hc]; (split; [done|]).
  - by destruct (c !! x).
  - by rewrite Hc.
Qed.

Lemma misses_sublist (c : gmap item pyval) (X : list item) :
  sublist (misses c X) X.
Proof.
  induction X as [|x X IH]; [constructor|].
  cbn [misses List.filter]. fold (misses c X).
  destruct (c !! x); by constructor.
Qed.

Lemma misses_length (c : gmap item pyval) (X : list item) :
  length (misses c X) ≤ length X.
Proof. apply sublist_length, misses_sublist. Qed.

Lemma misses_all_hits (c : gmap item pyval) (X : list item) :
  (∀ x, x ∈ X → is_Some (c !! x)) → misses c X = [].
Proof.
  intros Hhit. destruct (misses c X) as [|x l] eqn:Hm; [done|].
  assert (Hx : x ∈ misses c X) by (rewrite Hm; left).
  apply elem_of_misses in Hx as [Hx Hnone].
  destruct (Hhit x Hx) as [v Hv]. congruence.
Qed.

(** An occurrence of a missing item has its own entry in the Miss
    List, at the rank of its index. *)
Lemma misses_rank (c : gmap item pyval) (X : list item) (i : nat) (x : item) :
  X !! i = Some x → c !! x = None → misses c X !! rank c X i = Some x.
Proof.
  intros Hi Hx. unfold rank.
  replace (misses c X) with (misses c (take i X ++ x :: drop (S i) X))
    by (by rewrite take_drop_middle).
  rewrite misses_app. cbn [misses List.filter]. rewrite Hx.
  by rewrite list_lookup_middle.
Qed.

Lemma rank_lt (c : gmap item pyval) (X : list item) (i j : nat) (x : item) :
  X !! i = Some x → c !! x = None → i < j → rank c X i < rank c X j.
Proof.
  intros Hi Hx Hij. unfold rank.
  assert (Htake : take j X = take i X ++ x :: take (j - S i) (drop (S i) X)).
  { replace (take j X) with (take j (take i X ++ x :: drop (S i) X))
      by (by rewrite take_drop_middle).
    assert (Hlen : length (take i X) = i).
    { rewrite length_take. apply lookup_lt_Some in Hi. lia. }
    rewrite take_app, Hlen, (take_ge (take i X)) by lia.
    replace (j - i) with (S (j - S i)) by lia. done. }
  rewrite Htake, misses_app. cbn [misses List.filter]. rewrite Hx.
  rewrite length_app. simpl. lia.
Qed.

(** *** The assembled result *)

Lemma merge_length (c : gmap item pyval) (X : list item) (out : list pyval) :
  length (merge c X out) = length X.
Proof.
  revert out. induction X as [|x X IH]; intros out; [done|].
  cbn [merge]. destruct (c !! x); [|destruct out]; simpl; by rewrite IH.
Qed.

Lemma merge_lookup_hit (c : gmap item pyval) (X : list item) (out : list pyval)
    (i : nat) (x : item) (v : pyval) :
  X !! i = Some x → c !! x = Some v → merge c X out !! i = Some v.
Proof.
  revert out i. induction X as [|y X IH]; intros out [|i] Hi Hx; try done.
  - simpl in Hi. injection Hi as ->. cbn [merge]. by rewrite Hx.
  - simpl in Hi. cbn [merge]. destruct (c !! y); [|destruct out]; simpl; by apply IH.
Qed.

Lemma rank_cons_hit (c : gmap item pyval) (y : item) (X : list item) (i : nat) :
  is_Some (c !! y) → rank c (y :: X) (S i) = rank c X i.
Proof.
  intros [v Hy]. unfold rank. cbn [take misses List.filter]. by rewrite Hy.
Qed.

Lemma rank_cons_miss (c : gmap item pyval) (y : item) (X : list item) (i : nat) :
  c !! y = None → rank c (y :: X) (S i) = S (rank c X i).
Proof.
  intros Hy. unfold rank. cbn [take misses List.filter]. by rewrite Hy.
Qed.

Lemma merge_lookup_miss (c : gmap item pyval) (X : list item) (out : list pyval)
    (i : nat) (x : item) :
  X !! i = Some x → c !! x = None →
  merge c X out !! i = Some (default (PyStr "TODO") (out !! rank c X i)).
Proof.
  revert out i. induction X as [|y X IH]; intros out [|i] Hi Hx; try done.
  - simpl in Hi. injection Hi as ->. cbn [merge]. rewrite Hx. by destruct out.
  - simpl in Hi. cbn [merge]. destruct (c !! y) as [u|] eqn:Hy.
    + rewrite rank_cons_hit by eauto. simpl. by apply IH.
    + rewrite rank_cons_miss by done. destruct out as [|o out]; simpl.
      * rewrite (IH [] i) by done. by rewrite lookup_nil.
      * by apply IH.
Qed.

Lemma agrees_cons (embed : item → vec) (c : gmap item pyval) (x : item) (X : list item) :
  agrees embed c (x :: X) → agrees embed c X.
Proof. intros Hc y v Hy. apply Hc. by right. Qed.

Lemma agrees_holds_vectors (embed : item → vec) (c : gmap item pyval) (X : list item) :
  agrees embed c X → holds_vectors c X.
Proof. intros Hc x v Hx Hv. exists (embed x). by apply Hc. Qed.

(** With a store that agrees with the pipeline, hits and fresh vectors
    assemble to what the pipeline computes for the whole input. *)
Lemma merge_agrees (embed : item → vec) (c : gmap item pyval) (X : list item) :
  agrees embed c X →
  merge c X (map (λ x, PyArr (embed x)) (misses c X)) = map (λ x, PyArr (embed x)) X.
Proof.
  induction X as [|x X IH]; intros Hc; [done|].
  cbn [merge misses List.filter map]. fold (misses c X).
  destruct (c !! x) as [v|] eqn:Hx.
  - rewrite (Hc x v) by (done || left). f_equal. apply IH. by eapply agrees_cons.
  - cbn [map]. f_equal. apply IH. by eapply agrees_cons.
Qed.

Lemma holds_vectors_checked (c : gmap item pyval) (X : list item) :
  holds_vectors_b c X = true → holds_vectors c X.
Proof.
  unfold holds_vectors_b. rewrite forallb_forall.
  intros Hall x v Hx%list_elem_of_In Hv. specialize (Hall x Hx).
  rewrite Hv in Hall. destruct v as [s|a]; [done|by exists a].
Qed.

Lemma agrees_checked `{EqDecision vec} (embed : item → vec) (c : gmap item pyval)
    (X : list item) :
  agrees_b embed c X = true → agrees embed c X.
Proof.
  unfold agrees_b. rewrite forallb_forall.
  intros Hall x v Hx%list_elem_of_In Hv. specialize (Hall x Hx).
  rewrite Hv in Hall. destruct v as [s|a]; [done|].
  apply bool_decide_eq_true in Hall. by subst.
Qed.

(** *** [wrapped] around a pipeline's original [transform] *)

Lemma wrapped_original (name : string) (p : list item → exn + list pyval)
    (X : list item) (w : world) :
  holds_vectors (contents w name) X →
  wrapped name (original p) X w
  = match p (misses (contents w name) X) with
    | inl e => (inl e, called (misses (contents w name) X) w)
    | inr out =>
        (inr (merge (contents w name) X out),
         write_back name (zip (misses (contents w name) X) out)
           (called (misses (contents w name) X) w))
    end.
Proof.
  intros Hc. rewrite wrapped_run by done. unfold original, called.
  by destruct (p _).
Qed.

Lemma not_transform_in_writes (name : string) (kvs : list (item * pyval)) (Y : list item) :
  EvTransform Y ∉ map (λ '(k, v), EvSet name k v) kvs.
Proof. intros ([k v] & Heq & _)%list_elem_of_fmap. discriminate. Qed.

Lemma zip_keys (T : list item) (out : list pyval) (x : item) :
  x ∈ map fst (zip T out) → x ∈ T.
Proof.
  intros ([k v] & -> & Hin)%list_elem_of_fmap. by apply elem_of_zip_l in Hin.
Qed.

(** After the write-back the store maps every written key to the
    vector paired with its last occurrence. *)
Lemma write_back_zip_lookup (name : string) (T : list item) (out : list pyval)
    (w : world) (x : item) :
  length out = length T → x ∈ T →
  ∃ j, T !! j = Some x
       ∧ (∀ j', j < j' → T !! j' ≠ Some x)
       ∧ is_Some (out !! j)
       ∧ contents (write_back name (zip T out) w) name !! x = out !! j.
Proof.
  intros Hlen (l1 & l2 & -> & Hl2)%list_elem_of_split_r.
  rewrite length_app in Hlen. simpl in Hlen.
  destruct (lookup_lt_is_Some_2 out (length l1)) as [o Ho]; [lia|].
  exists (length l1). split; [by rewrite list_lookup_middle|].
  split; [|split; [by eauto|]].
  - intros j' Hj' Hlook. apply Hl2.
    rewrite lookup_app_r in Hlook by lia.
    destruct (j' - length l1) as [|n] eqn:Hn; [lia|]. simpl in Hlook.
    by eapply list_elem_of_lookup_2.
  - rewrite Ho. rewrite <- (take_drop_middle out (length l1) o Ho).
    rewrite zip_with_app by (rewrite length_take; lia). simpl.
    apply write_back_lookup_last. intros Hin%zip_keys. done.
Qed.

(** A miss slot is filled with the vector computed for its own entry
    of the Miss List. *)
Lemma merge_miss_slot (c : gmap item pyval) (X : list item) (out : list pyval)
    (i : nat) (x : item) :
  length out = length (misses c X) →
  X !! i = Some x → c !! x = None →
  misses c X !! rank c X i = Some x
  ∧ is_Some (out !! rank c X i)
  ∧ merge c X out !! i = out !! rank c X i.
Proof.
  intros Hlen Hi Hx.
  pose proof (misses_rank _ _ _ _ Hi Hx) as Hrank.
  destruct (lookup_lt_is_Some_2 out (rank c X i)) as [o Ho].
  { rewrite Hlen. by eapply lookup_lt_Some. }
  split; [done|]. split; [by eauto|].
  rewrite (merge_lookup_miss _ _ _ _ x) by done. by rewrite Ho.
Qed.

(** *** The properties of the wrapped [transform] *)

(** C2: on a call whose store holds vectors and whose pipeline returns
    one vector per miss, the original [transform] is called once, on
    exactly the items of the input that the store does not hold at call
    start, in their original relative order; the assembled result has
    one row per input item, the cached vector at every hit index and
    the freshly computed vector at every miss index. *)
Theorem transform_partial_hits (name : string) (p : list item → exn + list pyval)
    (X : list item) (w : world) (out : list pyval) :
  holds_vectors (contents w name) X →
  p (misses (contents w name) X) = inr out →
  length out = length (misses (contents w name) X) →
  ∃ result w' writes,
    wrapped name (original p) X w = (inr result, w')
    ∧ trace w' = trace w ++ EvTransform (misses (contents w name) X) :: writes
    ∧ (∀ Y, EvTransform Y ∉ writes)
    ∧ (∀ x, x ∈ misses (contents w name) X ↔ x ∈ X ∧ contents w name !! x = None)
    ∧ sublist (misses (contents w name) X) X
    ∧ length result = length X
    ∧ (∀ i x v, X !! i = Some x → contents w name !! x = Some v →
         result !! i = Some v)
    ∧ (∀ i x, X !! i = Some x → contents w name !! x = None →
         misses (contents w name) X !! rank (contents w name) X i = Some x
         ∧ is_Some (out !! rank (contents w name) X i)
         ∧ result !! i = out !! rank (contents w name) X i).
Proof.
  intros Hc Hp Hlen. eexists _, _, _.
  rewrite wrapped_original, Hp by done.
  split; [done|]. rewrite write_back_trace. simpl. rewrite <- app_assoc.
  split; [done|]. split; [by intros Y; apply not_transform_in_writes|].
  split; [by intros x; apply elem_of_misses|].
  split; [by apply misses_sublist|].
  split; [by apply merge_length|].
  split; [by intros i x v; apply merge_lookup_hit|].
  intros i x Hi Hx. by apply merge_miss_slot.
Qed.

(** C4: after a successful call there is one write per entry of the
    Miss List, in order and after the single call of the pipeline, and
    every item that was a miss at call start is in the store, mapped to
    the vector that the pipeline computed for (the last occurrence of)
    it; an earlier write to the same key is overwritten. *)
Theorem transform_writes_back (name : string) (p : list item → exn + list pyval)
    (X : list item) (w : world) (out : list pyval) :
  holds_vectors (contents w name) X →
  p (misses (contents w name) X) = inr out →
  length out = length (misses (contents w name) X) →
  ∃ result w',
    wrapped name (original p) X w = (inr result, w')
    ∧ trace w' = trace w ++ EvTransform (misses (contents w name) X)
                   :: map (λ '(k, v), EvSet name k v) (zip (misses (contents w name) X) out)
    ∧ map fst (zip (misses (contents w name) X) out) = misses (contents w name) X
    ∧ map snd (zip (misses (contents w name) X) out) = out
    ∧ (∀ x, x ∈ X → contents w name !! x = None →
         ∃ j, misses (contents w name) X !! j = Some x
              ∧ (∀ j', j < j' → misses (contents w name) X !! j' ≠ Some x)
              ∧ is_Some (out !! j)
              ∧ contents w' name !! x = out !! j)
    ∧ (∀ x, x ∉ misses (contents w name) X →
         contents w' name !! x = contents w name !! x).
Proof.
  intros Hc Hp Hlen. eexists _, _.
  rewrite wrapped_original, Hp by done.
  split; [done|]. rewrite write_back_trace. simpl. rewrite <- app_assoc.
  split; [done|].
  split; [by apply fst_zip; rewrite Hlen|].
  split; [by apply snd_zip; rewrite Hlen|].
  split.
  - intros x Hx Hnone. apply write_back_zip_lookup; [done|].
    by apply elem_of_misses.
  - intros x Hx. rewrite write_back_lookup_other; [done|].
    intros Hin%zip_keys. done.
Qed.

(** C5: when the pipeline raises on the miss batch, the call raises the
    same exception, returns no array, and leaves every cache directory
    as it was: the only event of the call is the failed [transform]. *)
Theorem transform_failure_leaves_store (name : string)
    (p : list item → exn + list pyval) (X : list item) (w : world) (e : exn) :
  holds_vectors (contents w name) X →
  p (misses (contents w name) X) = inl e →
  ∃ w',
    wrapped name (original p) X w = (inl e, w')
    ∧ disk w' = disk w
    ∧ trace w' = trace w ++ [EvTransform (misses (contents w name) X)].
Proof.
  intros Hc Hp. eexists. rewrite wrapped_original, Hp by done. done.
Qed.

(** C7, as the code has it: every call invokes the original
    [transform] exactly once, whatever it returns, and passes it the
    Miss List only, which holds no item of the store; on a full hit
    the call is made all the same, on the empty list. *)
Theorem transform_called_once_on_misses (name : string)
    (p : list item → exn + list pyval) (X : list item) (w : world) :
  holds_vectors (contents w name) X →
  ∃ writes,
    trace (wrapped name (original p) X w).2
    = trace w ++ EvTransform (misses (contents w name) X) :: writes
    ∧ (∀ Y, EvTransform Y ∉ writes)
    ∧ (∀ x, x ∈ misses (contents w name) X → x ∈ X ∧ contents w name !! x = None)
    ∧ ((∀ x, x ∈ X → is_Some (contents w name !! x)) →
         misses (contents w name) X = []).
Proof.
  intros Hc. rewrite wrapped_original by done.
  destruct (p _) as [e|out]; simpl.
  - exists []. split; [done|]. split; [by intros Y Hin%elem_of_nil|].
    split; [by intros x; apply elem_of_misses|]. apply misses_all_hits.
  - eexists. rewrite write_back_trace. simpl. rewrite <- app_assoc.
    split; [done|]. split; [by intros Y; apply not_transform_in_writes|].
    split; [by intros x; apply elem_of_misses|]. apply misses_all_hits.
Qed.

(** C8: every occurrence of an item that the store does not hold at
    call start has an entry of its own in the Miss List, which is
    passed whole to the pipeline before any write; occurrences at
    different indices have different entries, and the result carries at
    each of them the vector computed for that entry. *)
Theorem duplicate_misses_forwarded (name : string) (p : list item → exn + list pyval)
    (X : list item) (w : world) (out : list pyval) (x : item) :
  holds_vectors (contents w name) X →
  contents w name !! x = None →
  p (misses (contents w name) X) = inr out →
  length out = length (misses (contents w name) X) →
  ∃ result w',
    wrapped name (original p) X w = (inr result, w')
    ∧ trace w' = trace w ++ EvTransform (misses (contents w name) X)
                   :: map (λ '(k, v), EvSet name k v) (zip (misses (contents w name) X) out)
    ∧ (∀ i, X !! i = Some x →
         misses (contents w name) X !! rank (contents w name) X i = Some x
         ∧ is_Some (out !! rank (contents w name) X i)
         ∧ result !! i = out !! rank (contents w name) X i)
    ∧ (∀ i j, X !! i = Some x → X !! j = Some x → i < j →
         rank (contents w name) X i < rank (contents w name) X j).
Proof.
  intros Hc Hx Hp Hlen. eexists _, _.
  rewrite wrapped_original, Hp by done.
  split; [done|]. rewrite write_back_trace. simpl. rewrite <- app_assoc.
  split; [done|]. split; [by intros i Hi; apply merge_miss_slot|].
  intros i j Hi _ Hij. by eapply rank_lt.
Qed.

Lemma zip_itemwise (embed : item → vec) (T : list item) :
  zip T (map (λ x, PyArr (embed x)) T) = map (λ x, (x, PyArr (embed x))) T.
Proof. induction T as [|x T IH]; [done|]. simpl. by rewrite IH. Qed.

(** After a call on an item-wise pipeline the store agrees with it on
    the input. *)
Lemma write_back_agrees (name : string) (embed : item → vec) (X : list item) (w : world) :
  agrees embed (contents w name) X →
  ∀ x, x ∈ X →
    contents (write_back name
                (zip (misses (contents w name) X)
                     (map (λ x, PyArr (embed x)) (misses (contents w name) X)))
                (called (misses (contents w name) X) w)) name !! x
    = Some (PyArr (embed x)).
Proof.
  intros Hc x Hx.
  destruct (contents w name !! x) as [v|] eqn:Hv.
  - rewrite write_back_lookup_other.
    + change (contents (called ?Y w) name) with (contents w name).
      rewrite Hv. f_equal. by apply Hc.
    + intros Hin%zip_keys. apply elem_of_misses in Hin as [_ Hnone]. congruence.
  - destruct (write_back_zip_lookup name (misses (contents w name) X)
                (map (λ x, PyArr (embed x)) (misses (contents w name) X))
                (called (misses (contents w name) X) w) x)
      as (j & Hj & _ & _ & ->).
    + by rewrite length_map.
    + by apply elem_of_misses.
    + by rewrite list_lookup_fmap, Hj.
Qed.

Lemma misses_fresh (X : list item) : misses (∅ : gmap item pyval) X = X.
Proof.
  induction X as [|x X IH]; [done|].
  cbn [misses List.filter]. fold (misses (∅ : gmap item pyval) X).
  by rewrite lookup_empty, IH.
Qed.

Lemma merge_full_hit (c : gmap item pyval) (X : list item) (out : list pyval) :
  misses c X = [] → merge c X out = merge c X [].
Proof.
  induction X as [|x X IH]; [done|].
  cbn [misses List.filter merge]. fold (misses c X).
  destruct (c !! x); [|done]. intros Hm. by rewrite IH.
Qed.

(** What an item-wise pipeline computes for the misses is written back
    under their keys. *)
Lemma write_back_itemwise (name : string) (embed : item → vec) (T : list item)
    (w : world) (x : item) :
  x ∈ T →
  contents (write_back name (zip T (map (λ x, PyArr (embed x)) T)) w) name !! x
  = Some (PyArr (embed x)).
Proof.
  intros Hx.
  destruct (write_back_zip_lookup name T (map (λ x, PyArr (embed x)) T) w x)
    as (j & Hj & _ & _ & ->); [by rewrite length_map|done|].
  by rewrite list_lookup_fmap, Hj.
Qed.

(** C1, as the code has it: around a pipeline that is item-wise
    wherever it returns, and over a store that holds vectors, the call
    raises what the pipeline raises on the miss batch (the empty batch
    on a full hit included) and otherwise returns one row per input
    item, in input order: at a hit the stored vector as it is, whether
    or not it is the pipeline's, and at a miss the pipeline's vector
    for that item. So the rows are those of the uncached pipeline,
    index for index, when every entry that the store holds for an item
    of the input is the vector that the pipeline computes for it; and
    the call keeps such a store in agreement with the pipeline. *)
Theorem transform_matches_pipeline (name : string) (embed : item → vec)
    (p : list item → exn + list pyval) (X : list item) (w : world) :
  holds_vectors (contents w name) X →
  returns_itemwise embed p →
  ∃ result,
    length result = length X
    ∧ (∀ i x v, X !! i = Some x → contents w name !! x = Some v →
         result !! i = Some v)
    ∧ (∀ i x, X !! i = Some x → contents w name !! x = None →
         result !! i = Some (PyArr (embed x)))
    ∧ (agrees embed (contents w name) X →
         (∀ i x, X !! i = Some x → result !! i = Some (PyArr (embed x)))
         ∧ (∀ rows, p X = inr rows → result = rows))
    ∧ (∀ e, p (misses (contents w name) X) = inl e →
         wrapped name (original p) X w
         = (inl e, called (misses (contents w name) X) w))
    ∧ (∀ out, p (misses (contents w name) X) = inr out →
         ∃ w', wrapped name (original p) X w = (inr result, w')
               ∧ ∀ Y, agrees embed (contents w name) Y →
                      agrees embed (contents w' name) Y).
Proof.
  intros Hc Hp.
  set (E := λ x, PyArr (embed x)).
  exists (merge (contents w name) X (map E (misses (contents w name) X))).
  split; [by apply merge_length|].
  split; [by intros i x v; apply merge_lookup_hit|].
  split.
  { intros i x Hi Hx.
    destruct (merge_miss_slot (contents w name) X
                (map E (misses (contents w name) X)) i x)
      as (Hrank & _ & ->); [by rewrite length_map|done|done|].
    by rewrite list_lookup_fmap, Hrank. }
  split.
  { intros Hagree. rewrite (merge_agrees embed) by done. split.
    - intros i x Hi. by rewrite list_lookup_fmap, Hi.
    - intros rows Hrows. by rewrite (Hp X rows Hrows). }
  split.
  { intros e He. by rewrite wrapped_original, He by done. }
  intros out Hout. rewrite wrapped_original, Hout by done.
  rewrite (Hp _ out Hout). eexists. split; [done|].
  intros Y HY x v Hx Hv.
  destruct (decide (x ∈ misses (contents w name) X)) as [Hin|Hnot].
  - rewrite (write_back_itemwise name embed) in Hv by done. by injection Hv as <-.
  - rewrite write_back_lookup_other in Hv; [by eapply HY|].
    intros Hin%zip_keys. done.
Qed.

(** C6, as the code has it: around a pipeline that is item-wise
    wherever it returns, and from a fresh store, a first call on items
    for which the pipeline returns gives the pipeline's rows and
    leaves every item in the store; the second call on the same items
    is a full hit that writes nothing and hands the pipeline the empty
    batch: it returns the same rows when the pipeline accepts the
    empty batch, and raises what the pipeline raises on it otherwise. *)
Theorem transform_twice_fresh_store (name : string) (embed : item → vec)
    (p : list item → exn + list pyval) (X : list item) (w : world)
    (rows : list pyval) :
  contents w name = ∅ →
  returns_itemwise embed p →
  p X = inr rows →
  ∃ w1,
    wrapped name (original p) X w = (inr rows, w1)
    ∧ (∀ x, x ∈ X → contents w1 name !! x = Some (PyArr (embed x)))
    ∧ misses (contents w1 name) X = []
    ∧ wrapped name (original p) X w1
      = (match p [] with inl e => inl e | inr _ => inr rows end, called [] w1)
    ∧ disk (called [] w1) = disk w1
    ∧ trace (called [] w1) = trace w1 ++ [EvTransform []].
Proof.
  intros Hfresh Hp Hrows.
  set (E := λ x, PyArr (embed x)).
  assert (HE : rows = map E X) by by apply Hp.
  assert (Hm : misses (contents w name) X = X).
  { rewrite Hfresh. apply misses_fresh. }
  assert (Hc : agrees embed (contents w name) X).
  { intros x v _. by rewrite Hfresh, lookup_empty. }
  set (w1 := write_back name (zip X rows) (called X w)).
  assert (Hw1 : ∀ x, x ∈ X → contents w1 name !! x = Some (E x)).
  { intros x Hx. unfold w1. rewrite HE. by apply write_back_itemwise. }
  assert (Hc1 : agrees embed (contents w1 name) X).
  { intros x v Hx Hv. rewrite Hw1 in Hv by done. by injection Hv as <-. }
  assert (Hm1 : misses (contents w1 name) X = []).
  { apply misses_all_hits. intros x Hx. rewrite Hw1 by done. eauto. }
  assert (Hfirst : merge (contents w name) X rows = rows).
  { pose proof (merge_agrees embed _ X Hc) as Hmerge.
    rewrite Hm in Hmerge. by rewrite HE. }
  assert (Hsecond : merge (contents w1 name) X [] = rows).
  { pose proof (merge_agrees embed _ X Hc1) as Hmerge.
    rewrite Hm1 in Hmerge. by rewrite HE. }
  exists w1. split.
  { rewrite wrapped_original by by eapply agrees_holds_vectors.
    by rewrite Hm, Hrows, Hfirst. }
  split; [done|]. split; [done|]. split; [|done].
  rewrite wrapped_original by by eapply agrees_holds_vectors.
  rewrite Hm1. destruct (p []) as [e|out]; [done|].
  by rewrite merge_full_hit, Hsecond.
Qed.

(** *** [cached] *)

Lemma run_cached_fresh (name : string) (f : pyobj) : RunCached name f ≠ f.
Proof.
  revert name. induction f as [v|g|name' f IH]; intros name; try discriminate.
  intros [= _ Heq]. by eapply IH.
Qed.

(** C10: [cached(name, pipeline)] returns the reference it was given;
    the object behind it has its [transform] attribute rebound to the
    caching wrapper around the former [transform], every other
    attribute (and the class, and every other object) is as before, the
    attribute no longer gives the former [transform], and calling
    [pipeline.transform] runs [wrapped]. *)
Theorem cached_rebinds_transform (name : string) (pipeline : nat)
    (heap : gmap nat object) (o : object) (f : pyobj) :
  heap !! pipeline = Some o →
  getattr o "transform" = Some f →
  ∃ heap' o',
    cached name pipeline heap = inr (pipeline, heap')
    ∧ heap' !! pipeline = Some o'
    ∧ (∀ r, r ≠ pipeline → heap' !! r = heap !! r)
    ∧ getattr o' "transform" = Some (RunCached name f)
    ∧ getattr o' "transform" ≠ Some f
    ∧ (∀ a, a ≠ "transform" → getattr o' a = getattr o a)
    ∧ class_attrs o' = class_attrs o
    ∧ (∀ X, call_transform heap' pipeline X = wrapped name (call f) X).
Proof.
  intros Hheap Hattr.
  exists (<[pipeline := setattr o "transform" (RunCached name f)]> heap),
         (setattr o "transform" (RunCached name f)).
  assert (Hget : getattr (setattr o "transform" (RunCached name f)) "transform"
                 = Some (RunCached name f)).
  { unfold getattr, setattr. simpl. by rewrite lookup_insert_eq. }
  split; [by unfold cached; rewrite Hheap, Hattr|].
  split; [by rewrite lookup_insert_eq|].
  split; [by intros r Hr; rewrite lookup_insert_ne|].
  split; [done|].
  split; [rewrite Hget; intros [= Heq]; by eapply run_cached_fresh|].
  split.
  { intros a Ha. unfold getattr, setattr. simpl. by rewrite lookup_insert_ne. }
  split; [done|].
  intros X. unfold call_transform. by rewrite lookup_insert_eq, Hget.
Qed.

(** ** [wrapped] on any store *)

Local Abbreviation pending := (Cached.pending np_str).
Local Abbreviation pending_items := (Cached.pending_items np_str).
Local Abbreviation assemble := (Cached.assemble np_str).
Variable truthy : object → bool.
Local Abbreviation calc_distances := (Cached.calc_distances np_str truthy).

Lemma elem_of_pending_items (c : gmap item pyval) (X : list item) (x : item) :
  x ∈ pending_items c X ↔ x ∈ X ∧ pending c x = true.
Proof.
  unfold Cached.pending_items. by rewrite !list_elem_of_In, List.filter_In.
Qed.

Lemma slots_index (c : gmap item pyval) (k : nat) (X : list item) (p : nat * pyval) :
  p ∈ slots c k X → k ≤ p.1.
Proof.
  revert k. induction X as [|x X IH]; intros k Hin; simpl in Hin.
  - by apply elem_of_nil in Hin.
  - apply elem_of_cons in Hin as [->|Hin]; [done|]. apply IH in Hin. lia.
Qed.

Lemma zip_pending_later (c : gmap item pyval) (k : nat) (X : list item)
    (tv : list (item * pyval)) (p : nat * (item * pyval)) :
  p ∈ zip (map (λ '(i, x), i)
             (List.filter (λ '(i, x), is_todo x) (slots c (S k) X))) tv →
  p.1 ≠ k.
Proof.
  destruct p as [i q]. intros Hin%elem_of_zip_l.
  apply list_elem_of_fmap in Hin as [[j v] [-> Hin]].
  apply list_elem_of_In, List.filter_In in Hin as [Hin%list_elem_of_In _].
  apply slots_index in Hin. simpl in *. lia.
Qed.

Lemma pending_getitem (Xfull X : list item) (c : gmap item pyval) (k : nat) (w : world) :
  drop k Xfull = X →
  for_each (λ '(i, x), getitem Xfull i)
    (List.filter (λ '(i, x), is_todo x) (slots c k X)) w
  = (inr (pending_items c X), w).
Proof.
  revert k. induction X as [|x X IH]; intros k Hdrop; [done|].
  assert (Hk : Xfull !! k = Some x).
  { rewrite <- (Nat.add_0_r k), <- lookup_drop, Hdrop. done. }
  assert (Hrest : drop (S k) Xfull = X).
  { replace (S k) with (k + 1) by lia. by rewrite <- drop_drop, Hdrop. }
  cbn [slots List.filter Cached.pending_items]. unfold Cached.pending at 1.
  destruct (Cached.is_todo np_str _).
  - cbn [for_each]. unfold mbind, M_bind. unfold getitem at 1. rewrite Hk.
    unfold mret at 1, M_ret at 1. by rewrite (IH (S k) Hrest).
  - by apply IH.
Qed.

Lemma pending_indices_length (c : gmap item pyval) (k : nat) (X : list item) :
  length (List.filter (λ '(i, x), is_todo x) (slots c k X))
  = length (pending_items c X).
Proof.
  revert k. induction X as [|x X IH]; intros k; [done|].
  cbn [slots List.filter Cached.pending_items]. unfold Cached.pending at 1.
  destruct (Cached.is_todo np_str _); simpl; by rewrite IH.
Qed.

Lemma slots_assemble_nil (c : gmap item pyval) (k : nat) (X : list item) :
  map snd (slots c k X) = assemble c X [].
Proof.
  revert k. induction X as [|x X IH]; intros k; [done|].
  cbn [slots Cached.assemble map snd]. rewrite IH.
  by destruct (Cached.is_todo np_str _).
Qed.

Lemma fold_dict_set_assemble (c : gmap item pyval) (k : nat) (X : list item)
    (out : list pyval) :
  map snd (fold_left (λ d '(i, (text, x_tfm)), dict_set i x_tfm d)
             (zip (map (λ '(i, x), i)
                     (List.filter (λ '(i, x), is_todo x) (slots c k X)))
                  (zip (pending_items c X) out))
             (slots c k X))
  = assemble c X out.
Proof.
  revert k out. induction X as [|x X IH]; intros k out; [done|].
  cbn [slots List.filter Cached.pending_items Cached.assemble].
  unfold Cached.pending at 1.
  destruct (Cached.is_todo np_str _).
  - destruct out as [|o out]; cbn [map zip zip_with fold_left].
    + cbn [map snd]. by rewrite slots_assemble_nil.
    + cbn [dict_set]. rewrite decide_True by done.
      rewrite fold_dict_set_head by apply zip_pending_later.
      cbn [map snd]. f_equal. apply IH.
  - rewrite fold_dict_set_head by apply zip_pending_later.
    cbn [map snd]. f_equal. apply IH.
Qed.

(** The whole of [wrapped], with no assumption on the store. *)
Lemma wrapped_run_any (name : string) (method : list item → M (list pyval))
    (X : list item) (w : world) :
  wrapped name method X w
  = match method (pending_items (contents w name) X) w with
    | (inl e, w') => (inl e, w')
    | (inr out, w') =>
        (inr (assemble (contents w name) X out),
         write_back name (zip (pending_items (contents w name) X) out) w')
    end.
Proof.
  unfold wrapped, enumerate.
  rewrite bind_run, for_each_probe. cbv beta iota zeta.
  rewrite dict_of_slots.
  rewrite bind_run, pending_getitem by done.
  cbv beta iota. rewrite bind_run.
  destruct (method (pending_items (contents w name) X) w) as [[e|out] w']; [done|].
  rewrite bind_run.
  rewrite (for_loop_run _
             (λ d '(i, (text, x_tfm)), dict_set i x_tfm d)
             (λ w '(i, p), (λ w '(k, v), (cache_set name k v w).2) w p)); cycle 1.
  { by intros d [i [t v]] w0. }
  unfold mret, M_ret, np_array. f_equal.
  - f_equal. rewrite <- (fold_dict_set_assemble _ 0).
    clear. induction (fold_left _ _ _) as [|[i v] d IH]; [done|].
    simpl. by rewrite IH.
  - rewrite fold_zip_indices; [done|].
    rewrite length_zip_with, !length_map, pending_indices_length. lia.
Qed.

Lemma wrapped_original_any (name : string) (p : list item → exn + list pyval)
    (X : list item) (w : world) :
  wrapped name (original p) X w
  = match p (pending_items (contents w name) X) with
    | inl e => (inl e, called (pending_items (contents w name) X) w)
    | inr out =>
        (inr (assemble (contents w name) X out),
         write_back name (zip (pending_items (contents w name) X) out)
           (called (pending_items (contents w name) X) w))
    end.
Proof.
  rewrite wrapped_run_any. unfold original, called. by destruct (p _).
Qed.

(** ** Further properties of the wrapped [transform] *)

Lemma split_last_key (kvs : list (item * pyval)) (x : item) :
  x ∈ map fst kvs →
  ∃ kvs1 kvs2 v, kvs = kvs1 ++ (x, v) :: kvs2 ∧ x ∉ map fst kvs2.
Proof.
  induction kvs as [|[k u] kvs IH]; intros Hin; [by apply elem_of_nil in Hin|].
  destruct (decide (x ∈ map fst kvs)) as [Hlater|Hlast].
  - destruct (IH Hlater) as (kvs1 & kvs2 & v & -> & Hx).
    by exists ((k, u) :: kvs1), kvs2, v.
  - apply elem_of_cons in Hin as [->|Hin]; [|done].
    by exists [], kvs, u.
Qed.

Lemma store_frame (name : string) (kvs : list (item * pyval)) (Y : list item) (w : world) :
  (∀ d, d ≠ name → contents (write_back name kvs (called Y w)) d = contents w d)
  ∧ (∀ x, x ∉ map fst kvs →
       contents (write_back name kvs (called Y w)) name !! x = contents w name !! x)
  ∧ (∀ x, is_Some (contents w name !! x) →
       is_Some (contents (write_back name kvs (called Y w)) name !! x)).
Proof.
  split; [by intros d Hd; rewrite write_back_other|].
  split; [by intros x Hx; rewrite write_back_lookup_other|].
  intros x Hsome.
  destruct (decide (x ∈ map fst kvs)) as [Hin|Hout].
  - apply split_last_key in Hin as (kvs1 & kvs2 & v & -> & Hlast).
    rewrite write_back_lookup_last by done. eauto.
  - by rewrite write_back_lookup_other.
Qed.

(** On the empty input the call returns the empty array and writes
    nothing, whatever the pipeline returns for the empty batch; the
    pipeline is still called, and its failure is the call's failure. *)
Theorem transform_empty_input (name : string) (p : list item → exn + list pyval)
    (w : world) :
  wrapped name (original p) [] w
  = (match p [] with inl e => inl e | inr _ => inr [] end, called [] w)
  ∧ disk (called [] w) = disk w
  ∧ trace (called [] w) = trace w ++ [EvTransform []].
Proof.
  rewrite wrapped_original_any. cbn [Cached.pending_items List.filter].
  by destruct (p []).
Qed.

(** Whatever the pipeline returns or raises, a call on directory
    [name] leaves every other directory as it was, deletes no key,
    writes no key outside the input, and leaves every entry whose
    value does not render as the sentinel exactly as it was. *)
Theorem transform_store_only_grows (name : string) (p : list item → exn + list pyval)
    (X : list item) (w : world) :
  (∀ d, d ≠ name →
     contents (wrapped name (original p) X w).2 d = contents w d)
  ∧ (∀ x, is_Some (contents w name !! x) →
       is_Some (contents (wrapped name (original p) X w).2 name !! x))
  ∧ (∀ x, x ∉ X →
       contents (wrapped name (original p) X w).2 name !! x = contents w name !! x)
  ∧ (∀ x v, contents w name !! x = Some v → is_todo v = false →
       contents (wrapped name (original p) X w).2 name !! x = Some v).
Proof.
  assert (Hw : ∃ kvs,
    (wrapped name (original p) X w).2
    = write_back name kvs (called (pending_items (contents w name) X) w)
    ∧ ∀ x, x ∈ map fst kvs → x ∈ X ∧ pending (contents w name) x = true).
  { rewrite wrapped_original_any. destruct (p _) as [e|out].
    - exists []. split; [done|]. by intros x Hx%elem_of_nil.
    - eexists. split; [done|].
      intros x Hx%zip_keys. by apply elem_of_pending_items. }
  destruct Hw as (kvs & -> & Hkeys).
  destruct (store_frame name kvs (pending_items (contents w name) X) w)
    as (Hother & Hkeep & Hsome).
  split; [done|]. split; [done|]. split.
  - intros x Hx. apply Hkeep. intros Hin. by apply Hkeys in Hin as [? _].
  - intros x v Hv Htodo. rewrite Hkeep; [done|].
    intros Hin. apply Hkeys in Hin as [_ Hpend].
    unfold Cached.pending in Hpend. rewrite Hv in Hpend. simpl in Hpend. congruence.
Qed.

Lemma fst_zip_take (T : list item) (out : list pyval) :
  map fst (zip T out) = take (length out) T.
Proof.
  revert out. induction T as [|x T IH]; intros [|o out]; simpl; try done.
  by rewrite IH.
Qed.

(** The write loop runs over the zip of the misses and the returned
    vectors: when the pipeline returns fewer vectors than there are
    misses, only the first misses are written, in order, each with its
    vector; a miss beyond them is not written and stays out of the
    store. *)
Theorem transform_too_few_vectors (name : string) (p : list item → exn + list pyval)
    (X : list item) (w : world) (out : list pyval) :
  holds_vectors (contents w name) X →
  p (misses (contents w name) X) = inr out →
  length out ≤ length (misses (contents w name) X) →
  trace (wrapped name (original p) X w).2
  = trace w ++ EvTransform (misses (contents w name) X)
      :: map (λ '(k, v), EvSet name k v)
           (zip (take (length out) (misses (contents w name) X)) out)
  ∧ length (zip (take (length out) (misses (contents w name) X)) out) = length out
  ∧ (∀ x, x ∉ take (length out) (misses (contents w name) X) →
       contents (wrapped name (original p) X w).2 name !! x = contents w name !! x)
  ∧ (∀ x, x ∈ misses (contents w name) X →
       x ∉ take (length out) (misses (contents w name) X) →
       contents (wrapped name (original p) X w).2 name !! x = None).
Proof.
  intros Hc Hp Hlen. rewrite wrapped_original, Hp by done. cbn [snd].
  assert (Hzip : zip (take (length out) (misses (contents w name) X)) out
                 = zip (misses (contents w name) X) out).
  { apply zip_with_take_l'. lia. }
  rewrite Hzip.
  assert (Hkeep : ∀ x, x ∉ take (length out) (misses (contents w name) X) →
            contents (write_back name (zip (misses (contents w name) X) out)
                        (called (misses (contents w name) X) w)) name !! x
            = contents w name !! x).
  { intros x Hx. apply store_frame. by rewrite fst_zip_take. }
  split; [by rewrite write_back_trace; simpl; rewrite <- app_assoc|].
  split; [rewrite length_zip_with; lia|].
  split; [done|].
  intros x Hx Hnot. rewrite Hkeep by done. by apply elem_of_misses in Hx as [_ ?].
Qed.

Lemma merge_take (c : gmap item pyval) (X : list item) (out : list pyval) :
  merge c X (take (length (misses c X)) out) = merge c X out.
Proof.
  revert out. induction X as [|x X IH]; intros out; [done|].
  cbn [merge misses List.filter]. fold (misses c X).
  destruct (c !! x) as [v|]; [by rewrite IH|].
  destruct out as [|o out]; simpl; [|by rewrite IH].
  rewrite <- (IH []). by rewrite take_nil.
Qed.

Lemma zip_take_length (T : list item) (out : list pyval) :
  zip T (take (length T) out) = zip T out.
Proof.
  revert out. induction T as [|x T IH]; intros [|o out]; simpl; try done.
  by rewrite IH.
Qed.

(** Vectors that the pipeline returns beyond the number of misses are
    dropped: result, store and trace are those of a pipeline that
    returns only the first ones. *)
Theorem transform_surplus_vectors_dropped (name : string)
    (p p' : list item → exn + list pyval) (X : list item) (w : world)
    (out : list pyval) :
  holds_vectors (contents w name) X →
  p (misses (contents w name) X) = inr out →
  p' (misses (contents w name) X)
  = inr (take (length (misses (contents w name) X)) out) →
  wrapped name (original p) X w = wrapped name (original p') X w.
Proof.
  intros Hc Hp Hp'. rewrite !wrapped_original, Hp, Hp' by done.
  by rewrite merge_take, zip_take_length.
Qed.

Lemma wrapped_full_hit (name : string) (p : list item → exn + list pyval)
    (X : list item) (w : world) :
  (∀ x, x ∈ X → ∃ a, contents w name !! x = Some (PyArr a)) →
  ∃ rows,
    length rows = length X
    ∧ (∀ i x, X !! i = Some x → rows !! i = contents w name !! x)
    ∧ wrapped name (original p) X w
      = (match p [] with inl e => inl e | inr _ => inr rows end, called [] w).
Proof.
  intros Hhit.
  assert (Hc : holds_vectors (contents w name) X).
  { intros x v Hx Hv. destruct (Hhit x Hx) as [a Ha]. exists a. congruence. }
  assert (Hm : misses (contents w name) X = []).
  { apply misses_all_hits. intros x Hx. destruct (Hhit x Hx) as [a ->]. eauto. }
  exists (merge (contents w name) X []).
  split; [by apply merge_length|]. split.
  { intros i x Hi. destruct (Hhit x (list_elem_of_lookup_2 _ _ _ Hi)) as [a Ha].
    rewrite Ha. by eapply merge_lookup_hit. }
  rewrite wrapped_original, Hm by done.
  destruct (p []) as [e|out]; [done|]. by rewrite merge_full_hit.
Qed.

(** After a successful call in which the pipeline returned one vector
    per miss, every item of the input is in the store with a vector.
    A later call on the same items, through a wrapper on the same
    directory around any pipeline, then hands that pipeline the empty
    batch only, writes nothing, and returns the stored rows (or raises
    what that pipeline raises on the empty batch). *)
Theorem transform_covers_input (name : string) (p p' : list item → exn + list pyval)
    (X : list item) (w : world) (out : list pyval) :
  holds_vectors (contents w name) X →
  p (misses (contents w name) X) = inr out →
  length out = length (misses (contents w name) X) →
  (∀ o, o ∈ out → ∃ a, o = PyArr a) →
  (∀ x, x ∈ X →
     ∃ a, contents (wrapped name (original p) X w).2 name !! x = Some (PyArr a))
  ∧ ∃ rows,
      length rows = length X
      ∧ (∀ i x, X !! i = Some x →
           rows !! i = contents (wrapped name (original p) X w).2 name !! x)
      ∧ wrapped name (original p') X (wrapped name (original p) X w).2
        = (match p' [] with inl e => inl e | inr _ => inr rows end,
           called [] (wrapped name (original p) X w).2).
Proof.
  intros Hc Hp Hlen Hout.
  assert (Hall : ∀ x, x ∈ X →
            ∃ a, contents (wrapped name (original p) X w).2 name !! x = Some (PyArr a)).
  { intros x Hx. rewrite wrapped_original, Hp by done. cbn [snd].
    destruct (contents w name !! x) as [v|] eqn:Hv.
    - destruct (Hc x v Hx Hv) as [a ->]. exists a.
      rewrite write_back_lookup_other; [done|].
      intros Hin%zip_keys. apply elem_of_misses in Hin as [_ ?]. congruence.
    - destruct (write_back_zip_lookup name (misses (contents w name) X) out
                  (called (misses (contents w name) X) w) x Hlen)
        as (j & _ & _ & [o Ho] & ->); [by apply elem_of_misses|].
      destruct (Hout o (list_elem_of_lookup_2 _ _ _ Ho)) as [a ->]. eauto. }
  split; [done|]. by apply wrapped_full_hit.
Qed.

(** When every item of the input is in the store with a vector, the
    rows of the result are the stored values, index by index, and the
    disk is left as it was; the pipeline is handed the empty batch,
    what it returns for it is ignored, but if it raises on it the call
    raises in spite of the full hit. *)
Theorem transform_full_hit (name : string) (p : list item → exn + list pyval)
    (X : list item) (w : world) :
  (∀ x, x ∈ X → ∃ a, contents w name !! x = Some (PyArr a)) →
  ∃ rows,
    length rows = length X
    ∧ (∀ i x, X !! i = Some x → rows !! i = contents w name !! x)
    ∧ wrapped name (original p) X w
      = (match p [] with inl e => inl e | inr _ => inr rows end, called [] w)
    ∧ disk (called [] w) = disk w.
Proof.
  intros Hhit.
  assert (Hc : holds_vectors (contents w name) X).
  { intros x v Hx Hv. destruct (Hhit x Hx) as [a Ha]. exists a. congruence. }
  assert (Hm : misses (contents w name) X = []).
  { apply misses_all_hits. intros x Hx. destruct (Hhit x Hx) as [a ->]. eauto. }
  exists (merge (contents w name) X []).
  split; [by apply merge_length|]. split.
  { intros i x Hi. destruct (Hhit x (list_elem_of_lookup_2 _ _ _ Hi)) as [a Ha].
    rewrite Ha. by eapply merge_lookup_hit. }
  split; [|done].
  rewrite wrapped_original, Hm by done.
  destruct (p []) as [e|out]; [done|].
  rewrite <- (merge_take _ _ out), Hm. by rewrite take_0.
Qed.

(** A stored value that renders as "TODO" does not count as a hit: its
    item is handed to the pipeline with the misses, and the entry is
    overwritten with what the pipeline computes for it. *)
Theorem transform_sentinel_collision (name : string) (p : list item → exn + list pyval)
    (X : list item) (w : world) (out : list pyval) (x : item) (v : pyval) :
  contents w name !! x = Some v →
  is_todo v = true →
  x ∈ X →
  p (pending_items (contents w name) X) = inr out →
  length out = length (pending_items (contents w name) X) →
  x ∈ pending_items (contents w name) X
  ∧ trace (wrapped name (original p) X w).2
    = trace w ++ EvTransform (pending_items (contents w name) X)
        :: map (λ '(k, v), EvSet name k v) (zip (pending_items (contents w name) X) out)
  ∧ ∃ j, pending_items (contents w name) X !! j = Some x
         ∧ is_Some (out !! j)
         ∧ contents (wrapped name (original p) X w).2 name !! x = out !! j.
Proof.
  intros Hv Htodo Hx Hp Hlen.
  assert (Hin : x ∈ pending_items (contents w name) X).
  { apply elem_of_pending_items. split; [done|].
    unfold Cached.pending. by rewrite Hv. }
  split; [done|]. rewrite wrapped_original_any, Hp. cbn [snd].
  split; [by rewrite write_back_trace; simpl; rewrite <- app_assoc|].
  destruct (write_back_zip_lookup name (pending_items (contents w name) X) out
              (called (pending_items (contents w name) X) w) x Hlen Hin)
    as (j & Hj & _ & Hout & Hlook).
  by exists j.
Qed.

(** ** Wrapping twice *)

Lemma misses_idem (c : gmap item pyval) (X : list item) :
  misses c (misses c X) = misses c X.
Proof.
  induction X as [|x X IH]; [done|].
  cbn [misses List.filter]. fold (misses c X).
  destruct (c !! x) eqn:Hx; [done|].
  cbn [misses List.filter]. fold (misses c (misses c X)). by rewrite Hx, IH.
Qed.

Lemma merge_all_misses (c : gmap item pyval) (T : list item) (out : list pyval) :
  (∀ x, x ∈ T → c !! x = None) → length out = length T → merge c T out = out.
Proof.
  revert out. induction T as [|x T IH]; intros [|o out] Hnone Hlen; try done.
  cbn [merge]. rewrite (Hnone x) by left. f_equal.
  apply IH; [|by injection Hlen]. intros y Hy. apply Hnone. by right.
Qed.

Lemma write_back_twice (name : string) (kvs : list (item * pyval)) (w : world)
    (d : string) :
  contents (write_back name kvs (write_back name kvs w)) d
  = contents (write_back name kvs w) d.
Proof.
  destruct (decide (name = d)) as [<-|Hd]; [|by rewrite write_back_other].
  apply map_eq. intros x.
  destruct (decide (x ∈ map fst kvs)) as [Hin|Hout].
  - apply split_last_key in Hin as (kvs1 & kvs2 & v & -> & Hlast).
    by rewrite !write_back_lookup_last.
  - by rewrite write_back_lookup_other.
Qed.

(** Applying [cached] twice with the same name to one pipeline nests
    the wrapper in itself. A call then returns what it returns after
    one application and leaves the same store; the pipeline is still
    called once, but every miss is written twice. *)
Theorem cached_twice_same_name (name : string) (pipeline : nat)
    (heap : gmap nat object) (o : object) (p : list item → exn + list pyval)
    (X : list item) (w : world) (out : list pyval) :
  heap !! pipeline = Some o →
  getattr o "transform" = Some (Function p) →
  holds_vectors (contents w name) X →
  p (misses (contents w name) X) = inr out →
  length out = length (misses (contents w name) X) →
  ∃ heap1 heap2 result w1 w2,
    cached name pipeline heap = inr (pipeline, heap1)
    ∧ cached name pipeline heap1 = inr (pipeline, heap2)
    ∧ call_transform heap1 pipeline X w = (inr result, w1)
    ∧ call_transform heap2 pipeline X w = (inr result, w2)
    ∧ (∀ d, contents w2 d = contents w1 d)
    ∧ trace w1 = trace w ++ EvTransform (misses (contents w name) X)
                   :: map (λ '(k, v), EvSet name k v) (zip (misses (contents w name) X) out)
    ∧ trace w2 = trace w1
                   ++ map (λ '(k, v), EvSet name k v) (zip (misses (contents w name) X) out).
Proof.
  intros Hheap Hattr Hc Hp Hlen.
  set (T := misses (contents w name) X) in *.
  set (o1 := setattr o "transform" (RunCached name (Function p))).
  set (heap1 := <[pipeline := o1]> heap).
  set (o2 := setattr o1 "transform" (RunCached name (RunCached name (Function p)))).
  assert (Hget1 : getattr o1 "transform" = Some (RunCached name (Function p))).
  { unfold getattr, o1, setattr. simpl. by rewrite lookup_insert_eq. }
  assert (Hget2 : getattr o2 "transform"
                  = Some (RunCached name (RunCached name (Function p)))).
  { unfold getattr, o2, setattr. simpl. by rewrite lookup_insert_eq. }
  assert (Hheap1 : heap1 !! pipeline = Some o1) by apply lookup_insert_eq.
  assert (Hinner : wrapped name (original p) T w
                   = (inr out, write_back name (zip T out) (called T w))).
  { rewrite wrapped_original.
    - unfold T. rewrite misses_idem. fold T. rewrite Hp.
      rewrite merge_all_misses; [done| |done].
      intros x Hx. by apply elem_of_misses in Hx as [_ ?].
    - intros x v Hx Hv. apply elem_of_misses in Hx as [_ Hx]. congruence. }
  exists heap1, (<[pipeline := o2]> heap1), (merge (contents w name) X out),
    (write_back name (zip T out) (called T w)),
    (write_back name (zip T out) (write_back name (zip T out) (called T w))).
  split; [by unfold cached; rewrite Hheap, Hattr|].
  split; [by unfold cached; rewrite Hheap1, Hget1|].
  split.
  { unfold Cached.call_transform. rewrite Hheap1, Hget1. cbn [Cached.call].
    unfold run_cached. rewrite wrapped_original by done. fold T. by rewrite Hp. }
  split.
  { unfold Cached.call_transform. rewrite lookup_insert_eq, Hget2.
    cbn [Cached.call]. unfold run_cached.
    rewrite wrapped_run by done. fold T. by rewrite Hinner. }
  split; [by intros d; apply write_back_twice|].
  rewrite !write_back_trace. simpl. rewrite <- !app_assoc. done.
Qed.

(** ** [calc_distances] *)

Lemma call_transform_cached (heap : gmap nat object) (pipeline : nat) (o : object)
    (name : string) (p : list item → exn + list pyval) (X : list item) :
  heap !! pipeline = Some o →
  getattr o "transform" = Some (RunCached name (Function p)) →
  call_transform heap pipeline X = wrapped name (original p) X.
Proof.
  intros Hheap Hattr. unfold Cached.call_transform. by rewrite Hheap, Hattr.
Qed.

Lemma write_back_agrees_any (name : string) (embed : item → vec)
    (X Y : list item) (w : world) :
  agrees embed (contents w name) X →
  agrees embed (contents w name) Y →
  agrees embed
    (contents (write_back name
                 (zip (misses (contents w name) X)
                      (map (λ x, PyArr (embed x)) (misses (contents w name) X)))
                 (called (misses (contents w name) X) w)) name) Y.
Proof.
  intros HX HY x v Hx Hv.
  destruct (decide (x ∈ misses (contents w name) X)) as [Hin|Hout].
  - apply elem_of_misses in Hin as [Hin _].
    rewrite write_back_agrees in Hv by done. congruence.
  - rewrite write_back_lookup_other in Hv; [by eapply HY|].
    intros Hin%zip_keys. done.
Qed.

Lemma agrees_app (embed : item → vec) (c : gmap item pyval) (X Y : list item) :
  agrees embed c (X ++ Y) → agrees embed c X ∧ agrees embed c Y.
Proof.
  intros Hc. split; intros x v Hx; apply Hc; apply elem_of_app; eauto.
Qed.

(** With a cached item-wise pipeline and no anchor pipeline, over a
    store that agrees with the pipeline, [calc_distances] hands
    [pairwise_distances] the pipeline's vectors for the inputs and for
    the anchors, and returns the aggregate of the distances or what
    either of them raises. The inputs are transformed and written back
    first, so that an anchor that is also an input is never handed to
    the pipeline again. *)
Theorem calc_distances_cached {D R : Type}
    (pairwise_distances : list pyval → list pyval → exn + D)
    (aggregate : D → exn + R)
    (heap : gmap nat object) (pipeline : nat) (o : object) (name : string)
    (embed : item → vec) (inputs anchors : list item) (w : world) :
  heap !! pipeline = Some o →
  getattr o "transform" = Some (RunCached name (Function (itemwise embed))) →
  agrees embed (contents w name) (inputs ++ anchors) →
  ∃ w1 w2,
    wrapped name (original (itemwise embed)) inputs w
    = (inr (map (λ x, PyArr (embed x)) inputs), w1)
    ∧ wrapped name (original (itemwise embed)) anchors w1
      = (inr (map (λ x, PyArr (embed x)) anchors), w2)
    ∧ calc_distances pairwise_distances aggregate heap inputs anchors pipeline None w
      = (match pairwise_distances (map (λ x, PyArr (embed x)) inputs)
                 (map (λ x, PyArr (embed x)) anchors) with
         | inl e => inl e
         | inr X_dist => aggregate X_dist
         end, w2)
    ∧ (∀ x, x ∈ misses (contents w1 name) anchors →
         x ∈ anchors ∧ (x ∉ inputs) ∧ contents w name !! x = None).
Proof.
  intros Hheap Hattr Hagrees. apply agrees_app in Hagrees as [Hin Han].
  set (E := λ x, PyArr (embed x)).
  set (w1 := write_back name
               (zip (misses (contents w name) inputs)
                    (map E (misses (contents w name) inputs)))
               (called (misses (contents w name) inputs) w)).
  assert (Han1 : agrees embed (contents w1 name) anchors).
  { by apply write_back_agrees_any. }
  assert (Hrun1 : wrapped name (original (itemwise embed)) inputs w
                  = (inr (map E inputs), w1)).
  { rewrite wrapped_original by by eapply agrees_holds_vectors.
    unfold itemwise at 1. by rewrite merge_agrees. }
  set (w2 := write_back name
               (zip (misses (contents w1 name) anchors)
                    (map E (misses (contents w1 name) anchors)))
               (called (misses (contents w1 name) anchors) w1)).
  assert (Hrun2 : wrapped name (original (itemwise embed)) anchors w1
                  = (inr (map E anchors), w2)).
  { rewrite wrapped_original by by eapply agrees_holds_vectors.
    unfold itemwise at 1. by rewrite merge_agrees. }
  exists w1, w2. split; [done|]. split; [done|]. split.
  - unfold Cached.calc_distances.
    rewrite bind_run, (call_transform_cached _ _ _ _ _ inputs Hheap Hattr), Hrun1.
    rewrite bind_run. cbn [Cached.truth_value]. unfold mret at 1, M_ret at 1.
    rewrite bind_run, (call_transform_cached _ _ _ _ _ anchors Hheap Hattr), Hrun2.
    rewrite bind_run. unfold lift.
    by destruct (pairwise_distances _ _).
  - intros x [Hx Hnone]%elem_of_misses. split; [done|]. split.
    + intros Hinp.
      assert (Hw : contents w1 name !! x = Some (E x))
        by (by apply write_back_agrees).
      congruence.
    + destruct (contents w name !! x) as [v|] eqn:Hv; [|done].
      assert (Hkeep : is_Some (contents w1 name !! x)).
      { apply store_frame. rewrite Hv. eauto. }
      rewrite Hnone in Hkeep. by destruct Hkeep.
Qed.

(** When the pipeline raises on the miss batch of the inputs,
    [calc_distances] raises the same exception at once: the anchors
    are never probed or transformed, with or without an anchor
    pipeline, and every cache directory is as it was. *)
Theorem calc_distances_input_failure {D R : Type}
    (pairwise_distances : list pyval → list pyval → exn + D)
    (aggregate : D → exn + R)
    (heap : gmap nat object) (pipeline : nat) (o : object) (name : string)
    (p : list item → exn + list pyval) (inputs anchors : list item)
    (anchor_pipeline : option nat) (w : world) (e : exn) :
  heap !! pipeline = Some o →
  getattr o "transform" = Some (RunCached name (Function p)) →
  holds_vectors (contents w name) inputs →
  p (misses (contents w name) inputs) = inl e →
  ∃ w',
    calc_distances pairwise_distances aggregate heap inputs anchors pipeline
      anchor_pipeline w = (inl e, w')
    ∧ disk w' = disk w
    ∧ trace w' = trace w ++ [EvTransform (misses (contents w name) inputs)].
Proof.
  intros Hheap Hattr Hc Hp. eexists.
  unfold Cached.calc_distances.
  rewrite bind_run, (call_transform_cached _ _ _ _ _ inputs Hheap Hattr).
  rewrite wrapped_original, Hp by done. done.
Qed.


End WrapperFacts.

(** * The scenarios of the specification *)

(** The concrete rendering never produces the sentinel. *)
Lemma show_not_todo (a : list Z) : show a ≠ "TODO".
Proof. unfold show. simpl. discriminate. Qed.

(** The scenario of the specification with a duplicate item, run on
    a fresh store: the duplicate is computed and written twice. *)
Example scenario_duplicates :
  (wrapped show "emb" (original (itemwise len)) ["ab"; "abc"; "ab"] fresh).1
  = inr [PyArr [2%Z]; PyArr [3%Z]; PyArr [2%Z]]
  ∧ trace (wrapped show "emb" (original (itemwise len)) ["ab"; "abc"; "ab"] fresh).2
    = [EvTransform ["ab"; "abc"; "ab"];
       EvSet "emb" "ab" (PyArr [2%Z]);
       EvSet "emb" "abc" (PyArr [3%Z]);
       EvSet "emb" "ab" (PyArr [2%Z])].
Proof. split; vm_compute; reflexivity. Qed.

Lemma strict_len_itemwise : returns_itemwise len strict_len.
Proof. intros [|y Y] rows; simpl; [intros [=]|]. by intros [= <-]. Qed.

Lemma len_itemwise : returns_itemwise len (itemwise len).
Proof. by intros Y rows [= <-]. Qed.

(** C1, counterexample: the store holds [9] for "ab"; the wrapped
    [transform] returns that row, the pipeline itself computes [2].
    And with the pipeline's own vector for "ab" in the store, around
    the pipeline that rejects the empty batch, the wrapped [transform]
    raises on ["ab"] where the pipeline returns. *)
Lemma stale_entry_is_returned :
  (wrapped show "emb" (original (itemwise len)) ["ab"] stale).1 = inr [PyArr [9%Z]]
  ∧ itemwise len ["ab"] = inr [PyArr [2%Z]]
  ∧ (wrapped show "emb" (original (itemwise len)) ["ab"] stale).1 ≠ itemwise len ["ab"]
  ∧ (wrapped show "emb" (original strict_len) ["ab"] agreeing).1
    = inl (ValueError "Found array with 0 sample(s)")
  ∧ strict_len ["ab"] = inr [PyArr [2%Z]].
Proof.
  split; [vm_compute; reflexivity|]. split; [vm_compute; reflexivity|].
  split; [vm_compute; intros [=]|]. split; vm_compute; reflexivity.
Qed.

(** C6, counterexample: the pipeline that rejects the empty batch is
    deterministic; from a fresh store the first call returns its rows,
    and the second call, a full hit, raises. *)
Lemma second_call_raises_on_full_hit :
  (wrapped show "emb" (original strict_len) ["ab"; "abc"] fresh).1
  = inr [PyArr [2%Z]; PyArr [3%Z]]
  ∧ (wrapped show "emb" (original strict_len) ["ab"; "abc"]
       (wrapped show "emb" (original strict_len) ["ab"; "abc"] fresh).2).1
    = inl (ValueError "Found array with 0 sample(s)").
Proof. split; vm_compute; reflexivity. Qed.

(** C9, counterexample: on a 64-bit build a size of [2^63] is at least
    one, and the first [next] raises the ValueError of [islice]. *)
Lemma batched_huge_size_raises :
  (1 ≤ 9223372036854775808)%Z
  ∧ (next (batched [1%Z] 9223372036854775808)).1
    = Raise (ValueError
               "Stop argument for islice() must be None or an integer: 0 <= x <= sys.maxsize.")
  ∧ to_list (batched [1%Z] 9223372036854775808)
    = Some (inl (ValueError
                   "Stop argument for islice() must be None or an integer: 0 <= x <= sys.maxsize.")).
Proof. split; [lia|]. split; reflexivity. Qed.

(** C7, counterexample: "A" and "C" are both hits, and the original
    [transform] is invoked all the same, on the empty list. *)
Lemma full_hit_still_calls_transform :
  (∀ x, x ∈ ["A"; "C"] → is_Some (contents seeded "emb" !! x))
  ∧ trace seeded = []
  ∧ trace (wrapped show "emb" (original (itemwise len)) ["A"; "C"] seeded).2
    = [EvTransform []].
Proof.
  split; [|split; vm_compute; reflexivity].
  intros x Hx. repeat (apply elem_of_cons in Hx as [->|Hx]);
    [vm_compute; eauto..|by apply elem_of_nil in Hx].
Qed.

(** "ab" is in the store with its [len] vector, "abc" is not: hits at
    indices 0 and 2, a miss at index 1, around the pipeline that
    rejects the empty batch; the rows are those of the pipeline. *)
Lemma transform_matches_pipeline_witness :
  ∃ result w',
    wrapped show "emb" (original strict_len) ["ab"; "abc"; "ab"] agreeing
    = (inr result, w')
    ∧ strict_len ["ab"; "abc"; "ab"] = inr result
    ∧ result !! 0 = Some (PyArr [2%Z])
    ∧ result !! 1 = Some (PyArr [3%Z])
    ∧ result !! 2 = Some (PyArr [2%Z])
    ∧ length result = 3.
Proof.
  destruct (transform_matches_pipeline show show_not_todo "emb" len strict_len
              ["ab"; "abc"; "ab"] agreeing)
    as (result & Hlen & Hhit & Hmiss & Hagree & _ & Hrun).
  - apply holds_vectors_checked. vm_compute. reflexivity.
  - exact strict_len_itemwise.
  - destruct (Hrun [PyArr [3%Z]]) as (w' & Hrun' & _); [vm_compute; reflexivity|].
    destruct Hagree as (_ & Hrows); [apply agrees_checked; vm_compute; reflexivity|].
    exists result, w'. split; [exact Hrun'|].
    split; [by rewrite (Hrows [PyArr [2%Z]; PyArr [3%Z]; PyArr [2%Z]])|].
    split; [apply (Hhit 0 "ab"); vm_compute; reflexivity|].
    split; [apply (Hmiss 1 "abc"); vm_compute; reflexivity|].
    split; [apply (Hhit 2 "ab"); vm_compute; reflexivity|exact Hlen].
Defined.

(** The scenario [A, B, C] with A and C seeded: only B is passed on,
    and the result is [cache[A], computed(B), cache[C]]. *)
Lemma transform_partial_hits_witness :
  ∃ result w',
    wrapped show "emb" (original (itemwise len)) ["A"; "B"; "C"] seeded
    = (inr result, w')
    ∧ result !! 0 = Some (PyArr [7%Z])
    ∧ result !! 1 = Some (PyArr [1%Z])
    ∧ result !! 2 = Some (PyArr [9%Z])
    ∧ trace w' = [EvTransform ["B"]; EvSet "emb" "B" (PyArr [1%Z])].
Proof.
  destruct (transform_partial_hits show show_not_todo "emb" (itemwise len)
              ["A"; "B"; "C"] seeded [PyArr [1%Z]])
    as (result & w' & writes & Hrun & Htrace & _ & _ & _ & _ & Hhit & Hmiss).
  - apply holds_vectors_checked. vm_compute. reflexivity.
  - vm_compute. reflexivity.
  - vm_compute. reflexivity.
  - exists result, w'. split; [exact Hrun|].
    split; [apply (Hhit 0 "A"); vm_compute; reflexivity|].
    split.
    { destruct (Hmiss 1 "B") as (_ & _ & Hrow); [vm_compute; reflexivity..|].
      rewrite Hrow. vm_compute. reflexivity. }
    split; [apply (Hhit 2 "C"); vm_compute; reflexivity|].
    change w' with (@inr exn _ result, w').2. rewrite <- Hrun.
    vm_compute. reflexivity.
Defined.

(** Three misses, two of them the same key: three writes, and both
    keys are in the store afterwards. *)
Lemma transform_writes_back_witness :
  ∃ result w',
    wrapped show "emb" (original (itemwise len)) ["ab"; "abc"; "ab"] fresh
    = (inr result, w')
    ∧ trace w' = [EvTransform ["ab"; "abc"; "ab"];
                  EvSet "emb" "ab" (PyArr [2%Z]);
                  EvSet "emb" "abc" (PyArr [3%Z]);
                  EvSet "emb" "ab" (PyArr [2%Z])]
    ∧ is_Some (contents w' "emb" !! "ab")
    ∧ is_Some (contents w' "emb" !! "abc")
    ∧ contents w' "emb" !! "zz" = None.
Proof.
  destruct (transform_writes_back show show_not_todo "emb" (itemwise len)
              ["ab"; "abc"; "ab"] fresh [PyArr [2%Z]; PyArr [3%Z]; PyArr [2%Z]])
    as (result & w' & Hrun & Htrace & _ & _ & Hstored & Hkept).
  - apply holds_vectors_checked. vm_compute. reflexivity.
  - vm_compute. reflexivity.
  - vm_compute. reflexivity.
  - exists result, w'. split; [exact Hrun|].
    split; [rewrite Htrace; vm_compute; reflexivity|].
    split.
    { destruct (Hstored "ab") as (j & _ & _ & Hout & Hlook);
        [by left|vm_compute; reflexivity|]. by rewrite Hlook. }
    split.
    { destruct (Hstored "abc") as (j & _ & _ & Hout & Hlook);
        [by right; left|vm_compute; reflexivity|]. by rewrite Hlook. }
    rewrite Hkept; [vm_compute; reflexivity|].
    vm_compute. intros Hin.
    repeat (apply elem_of_cons in Hin as [[=]|Hin]). by apply elem_of_nil in Hin.
Defined.

(** A pipeline that raises on the miss batch [B]. *)
Lemma transform_failure_leaves_store_witness :
  ∃ w',
    wrapped show "emb" (original (λ _, inl (Exception "model not loaded")))
      ["A"; "B"; "C"] seeded
    = (inl (Exception "model not loaded"), w')
    ∧ disk w' = disk seeded
    ∧ trace w' = [EvTransform ["B"]].
Proof.
  destruct (transform_failure_leaves_store show show_not_todo "emb"
              (λ _, inl (Exception "model not loaded")) ["A"; "B"; "C"] seeded
              (Exception "model not loaded"))
    as (w' & Hrun & Hdisk & Htrace).
  - apply holds_vectors_checked. vm_compute. reflexivity.
  - reflexivity.
  - exists w'. split; [exact Hrun|]. split; [exact Hdisk|].
    rewrite Htrace. vm_compute. reflexivity.
Defined.

(** Two calls on the scenario with a duplicate item, from a fresh
    store, around the [len] pipeline, which accepts the empty batch. *)
Lemma transform_twice_fresh_store_witness :
  ∃ w1,
    wrapped show "emb" (original (itemwise len)) ["ab"; "abc"; "ab"] fresh
    = (inr [PyArr [2%Z]; PyArr [3%Z]; PyArr [2%Z]], w1)
    ∧ wrapped show "emb" (original (itemwise len)) ["ab"; "abc"; "ab"] w1
      = (inr [PyArr [2%Z]; PyArr [3%Z]; PyArr [2%Z]], called [] w1)
    ∧ misses (contents w1 "emb") ["ab"; "abc"; "ab"] = [].
Proof.
  destruct (transform_twice_fresh_store show show_not_todo "emb" len (itemwise len)
              ["ab"; "abc"; "ab"] fresh [PyArr [2%Z]; PyArr [3%Z]; PyArr [2%Z]])
    as (w1 & Hrun1 & _ & Hmiss & Hrun2 & _).
  - reflexivity.
  - exact len_itemwise.
  - reflexivity.
  - exists w1. split; [exact Hrun1|]. split; [exact Hrun2|exact Hmiss].
Defined.

(** A full hit: one call of the original [transform], on the empty
    list. *)
Lemma transform_called_once_on_misses_witness :
  ∃ writes,
    trace (wrapped show "emb" (original (itemwise len)) ["A"; "C"] seeded).2
    = trace seeded ++ EvTransform [] :: writes
    ∧ (∀ Y, EvTransform Y ∉ writes).
Proof.
  destruct (transform_called_once_on_misses show show_not_todo "emb" (itemwise len)
              ["A"; "C"] seeded)
    as (writes & Htrace & Hwrites & _ & _).
  - apply holds_vectors_checked. vm_compute. reflexivity.
  - exists writes. split; [exact Htrace|exact Hwrites].
Defined.

(** "ab" occurs at indices 0 and 2 and is not in the store: both
    occurrences are passed on. *)
Lemma duplicate_misses_forwarded_witness :
  ∃ result w',
    wrapped show "emb" (original (itemwise len)) ["ab"; "abc"; "ab"] fresh
    = (inr result, w')
    ∧ result !! 0 = Some (PyArr [2%Z])
    ∧ result !! 2 = Some (PyArr [2%Z])
    ∧ misses (contents fresh "emb") ["ab"; "abc"; "ab"] = ["ab"; "abc"; "ab"]
    ∧ rank (contents fresh "emb") ["ab"; "abc"; "ab"] 0
      < rank (contents fresh "emb") ["ab"; "abc"; "ab"] 2.
Proof.
  destruct (duplicate_misses_forwarded show show_not_todo "emb" (itemwise len)
              ["ab"; "abc"; "ab"] fresh [PyArr [2%Z]; PyArr [3%Z]; PyArr [2%Z]] "ab")
    as (result & w' & Hrun & _ & Hrow & Hrank).
  - apply holds_vectors_checked. vm_compute. reflexivity.
  - vm_compute. reflexivity.
  - vm_compute. reflexivity.
  - vm_compute. reflexivity.
  - exists result, w'. split; [exact Hrun|].
    split.
    { destruct (Hrow 0 eq_refl) as (_ & _ & ->). vm_compute. reflexivity. }
    split.
    { destruct (Hrow 2 eq_refl) as (_ & _ & ->). vm_compute. reflexivity. }
    split; [vm_compute; reflexivity|].
    apply Hrank; [reflexivity|reflexivity|lia].
Defined.

(** [cached("emb", encoder)] on a heap that holds the encoder. *)
Lemma cached_rebinds_transform_witness :
  ∃ heap',
    cached "emb" 0 {[ 0 := encoder ]} = inr (0, heap')
    ∧ (∀ X, call_transform show heap' 0 X
            = wrapped show "emb" (original (itemwise len)) X)
    ∧ (∃ o', heap' !! 0 = Some o' ∧ getattr o' "name" = Some (Data (PyStr "len"))).
Proof.
  destruct (cached_rebinds_transform show "emb" 0 {[ 0 := encoder ]} encoder
              (Function (itemwise len)))
    as (heap' & o' & Hcached & Hheap & _ & _ & _ & Hattrs & _ & Hcall).
  - vm_compute. reflexivity.
  - vm_compute. reflexivity.
  - exists heap'. split; [exact Hcached|]. split; [exact Hcall|].
    exists o'. split; [exact Hheap|].
    rewrite Hattrs; [vm_compute; reflexivity|discriminate].
Defined.

(** ** Scenarios for the further properties *)

(** Five items, size 2: the items 1 and 2, and nothing else. *)
Lemma batched_yields_first_items_witness :
  collect 3 (batched [1; 2; 3; 4; 5]%Z 2) = Some (inr [1; 2]%Z)
  ∧ to_list (batched [1; 2; 3; 4; 5]%Z 2) ≠ Some (inr [1; 2; 3; 4; 5]%Z).
Proof.
  destruct (batched_yields_first_items [1; 2; 3; 4; 5]%Z 2 3)
    as (Hcollect & _ & _ & _ & Hmore); [lia|simpl; lia|simpl; lia|].
  split; [exact Hcollect|]. apply Hmore. simpl. lia.
Defined.

(** Two misses, one vector: one write, and "abc" is not in the store
    afterwards. *)
Lemma transform_too_few_vectors_witness :
  trace (wrapped show "emb" (original (λ _, inr [PyArr [2%Z]])) ["ab"; "abc"] fresh).2
  = [EvTransform ["ab"; "abc"]; EvSet "emb" "ab" (PyArr [2%Z])]
  ∧ contents (wrapped show "emb" (original (λ _, inr [PyArr [2%Z]]))
                ["ab"; "abc"] fresh).2 "emb" !! "abc" = None.
Proof.
  destruct (transform_too_few_vectors show show_not_todo "emb"
              (λ _, inr [PyArr [2%Z]]) ["ab"; "abc"] fresh [PyArr [2%Z]])
    as (Htrace & _ & _ & Hout).
  - apply holds_vectors_checked. vm_compute. reflexivity.
  - reflexivity.
  - vm_compute. lia.
  - split; [rewrite Htrace; vm_compute; reflexivity|].
    apply Hout.
    + vm_compute. by right; left.
    + vm_compute. intros Hin.
      repeat (apply elem_of_cons in Hin as [[=]|Hin]). by apply elem_of_nil in Hin.
Defined.

(** One miss, two vectors returned: the second one is dropped. *)
Lemma transform_surplus_vectors_dropped_witness :
  wrapped show "emb" (original (λ _, inr [PyArr [2%Z]; PyArr [5%Z]])) ["ab"] fresh
  = wrapped show "emb" (original (λ _, inr [PyArr [2%Z]])) ["ab"] fresh.
Proof.
  apply (transform_surplus_vectors_dropped show show_not_todo "emb"
           (λ _, inr [PyArr [2%Z]; PyArr [5%Z]]) (λ _, inr [PyArr [2%Z]])
           ["ab"] fresh [PyArr [2%Z]; PyArr [5%Z]]).
  - apply holds_vectors_checked. vm_compute. reflexivity.
  - reflexivity.
  - vm_compute. reflexivity.
Defined.

(** After the call on [A, B, C] around [len], a call on the same
    items around the pipeline [zero] is handed the empty batch and
    returns the stored rows. *)
Lemma transform_covers_input_witness :
  ∃ rows,
    length rows = 3
    ∧ wrapped show "emb" (original (itemwise zero)) ["A"; "B"; "C"]
        (wrapped show "emb" (original (itemwise len)) ["A"; "B"; "C"] seeded).2
      = (inr rows,
         called [] (wrapped show "emb" (original (itemwise len)) ["A"; "B"; "C"] seeded).2).
Proof.
  destruct (transform_covers_input show show_not_todo "emb" (itemwise len)
              (itemwise zero) ["A"; "B"; "C"] seeded [PyArr [1%Z]])
    as (_ & rows & Hlen & _ & Hrun).
  - apply holds_vectors_checked. vm_compute. reflexivity.
  - vm_compute. reflexivity.
  - vm_compute. reflexivity.
  - intros o Ho. apply list_elem_of_singleton in Ho as ->. by eexists.
  - exists rows. split; [exact Hlen|exact Hrun].
Defined.

(** A full hit around a pipeline that raises on the empty batch: the
    call raises. *)
Lemma transform_full_hit_witness :
  wrapped show "emb" (original (λ _, inl (Exception "empty batch"))) ["A"; "C"] seeded
  = (inl (Exception "empty batch"), called [] seeded).
Proof.
  destruct (transform_full_hit show show_not_todo "emb"
              (λ _, inl (Exception "empty batch")) ["A"; "C"] seeded)
    as (rows & _ & _ & Hrun & _).
  - intros x Hx. repeat (apply elem_of_cons in Hx as [->|Hx]);
      [vm_compute; eauto..|by apply elem_of_nil in Hx].
  - exact Hrun.
Defined.

(** The stored string "TODO" for "ab" is not served: "ab" is computed
    and its entry overwritten. *)
Lemma transform_sentinel_collision_witness :
  "ab" ∈ pending_items show (contents collided "emb") ["ab"]
  ∧ trace (wrapped show "emb" (original (itemwise len)) ["ab"] collided).2
    = [EvTransform ["ab"]; EvSet "emb" "ab" (PyArr [2%Z])].
Proof.
  destruct (transform_sentinel_collision show "emb" (itemwise len) ["ab"] collided
              [PyArr [2%Z]] "ab" (PyStr "TODO"))
    as (Hin & Htrace & _).
  - vm_compute. reflexivity.
  - vm_compute. reflexivity.
  - by left.
  - vm_compute. reflexivity.
  - vm_compute. reflexivity.
  - split; [exact Hin|]. rewrite Htrace. vm_compute. reflexivity.
Defined.

(** [cached] applied twice to the encoder, then one call on a fresh
    store: three misses, six writes. *)
Lemma cached_twice_same_name_witness :
  ∃ heap1 heap2 result w1 w2,
    cached "emb" 0 {[ 0 := encoder ]} = inr (0, heap1)
    ∧ cached "emb" 0 heap1 = inr (0, heap2)
    ∧ call_transform show heap1 0 ["ab"; "abc"; "ab"] fresh = (inr result, w1)
    ∧ call_transform show heap2 0 ["ab"; "abc"; "ab"] fresh = (inr result, w2)
    ∧ (∀ d, contents w2 d = contents w1 d)
    ∧ length (trace w1) = 4
    ∧ length (trace w2) = 7.
Proof.
  destruct (cached_twice_same_name show show_not_todo "emb" 0 {[ 0 := encoder ]}
              encoder (itemwise len) ["ab"; "abc"; "ab"] fresh
              [PyArr [2%Z]; PyArr [3%Z]; PyArr [2%Z]])
    as (heap1 & heap2 & result & w1 & w2 & Hc1 & Hc2 & Hrun1 & Hrun2 & Hsame & Ht1 & Ht2).
  - vm_compute. reflexivity.
  - vm_compute. reflexivity.
  - apply holds_vectors_checked. vm_compute. reflexivity.
  - vm_compute. reflexivity.
  - vm_compute. reflexivity.
  - exists heap1, heap2, result, w1, w2.
    split; [exact Hc1|]. split; [exact Hc2|]. split; [exact Hrun1|].
    split; [exact Hrun2|]. split; [exact Hsame|].
    split; [rewrite Ht1; vm_compute; reflexivity|].
    rewrite Ht2, Ht1. vm_compute. reflexivity.
Defined.

(** Inputs [ab, abc], anchors [ab, zz]: the distances are taken between
    the [len] vectors, and "ab" is not among the misses of the anchors. *)
Lemma calc_distances_cached_witness :
  ∃ w1 w2 : @world string _ _ (list Z),
    calc_distances show all_true both same encoders ["ab"; "abc"] ["ab"; "zz"] 0 None fresh
    = (inr ([PyArr [2%Z]; PyArr [3%Z]], [PyArr [2%Z]; PyArr [2%Z]]), w2)
    ∧ (∀ x, x ∈ misses (contents w1 "emb") ["ab"; "zz"] → x ∉ ["ab"; "abc"]).
Proof.
  destruct (calc_distances_cached show show_not_todo all_true both same encoders 0 len_cached
              "emb" len ["ab"; "abc"] ["ab"; "zz"] fresh)
    as (w1 & w2 & _ & _ & Hcalc & Hmiss).
  - vm_compute. reflexivity.
  - vm_compute. reflexivity.
  - apply agrees_checked. vm_compute. reflexivity.
  - exists w1, w2. split; [exact Hcalc|].
    intros x Hx. by destruct (Hmiss x Hx) as (_ & Hnot & _).
Defined.

(** The encoder raises on the inputs: [calc_distances] raises, and the
    only event is that call. *)
Lemma calc_distances_input_failure_witness :
  ∃ w',
    calc_distances show all_true both same {[ 0 := broken_cached ]} ["A"; "B"] ["C"] 0 None seeded
    = (inl (Exception "model not loaded"), w')
    ∧ disk w' = disk seeded
    ∧ trace w' = [EvTransform ["B"]].
Proof.
  destruct (calc_distances_input_failure show show_not_todo all_true both same
              {[ 0 := broken_cached ]} 0 broken_cached "emb"
              (λ _, inl (Exception "model not loaded")) ["A"; "B"] ["C"] None seeded
              (Exception "model not loaded"))
    as (w' & Hcalc & Hdisk & Htrace).
  - vm_compute. reflexivity.
  - vm_compute. reflexivity.
  - apply holds_vectors_checked. vm_compute. reflexivity.
  - reflexivity.
  - exists w'. split; [exact Hcalc|]. split; [exact Hdisk|].
    rewrite Htrace. vm_compute. reflexivity.
Defined.

